(** * MP3 frame counting (src/mp3Parser.ts): a shallow embedding and its properties

    The TypeScript module exports one function, [countMp3Frames], which scans
    a byte buffer for MPEG Version 1 Layer III frame headers.  It is built of
    [readByte] (a bounds-checked read that throws), [parseFrameHeader] (the
    bit-field decoder) and the scan loop.

    Modelling choices:
    - a [Buffer] is a [list byte]; its [length] is [Z.of_nat (length buffer)];
    - a JS number that holds an integer is a [Z]; [undefined] (what indexing a
      Buffer outside [0, length) yields) is [None] in an [option Z];
    - the bitwise operators work on 32-bit signed integers, with the
      wrap-around written out ([int32]);
    - the one non-integer operation, the division inside the frame-size
      formula, is an IEEE binary64 division ([PrimFloat.div]);
    - [throw] is the [Throw] constructor of [outcome]; [try]/[catch] is a
      match on it;
    - the [while] loop is a fuelled fixpoint over the loop body; the buffer
      length is shown to be always enough fuel. *)

From Stdlib Require Import ZArith Strings.Byte Strings.Ascii Strings.String.
From Stdlib Require Import Floats.PrimFloat Floats.FloatOps Floats.SpecFloat.
From Stdlib Require Import Numbers.Cyclic.Int63.Uint63.
From stdpp Require Import base option list gmap.

Local Open Scope Z_scope.

(** ** Results of code that may throw *)

Inductive outcome (A : Type) : Type :=
  | Ret (a : A)
  | Throw.
Arguments Ret {A} a.
Arguments Throw {A}.

#[global] Instance outcome_ret : MRet outcome := fun A a => Ret a.
#[global] Instance outcome_bind : MBind outcome := fun A B f m =>
  match m with
  | Ret a => f a
  | Throw => Throw
  end.

(** ** JavaScript numbers *)

(** [ToInt32] on an integral number: reduce modulo 2^32 into [-2^31, 2^31). *)
Definition int32 (z : Z) : Z := (z + 2 ^ 31) mod 2 ^ 32 - 2 ^ 31.

(** [ToInt32] on a value that may be [undefined]: [undefined] becomes NaN and
    then 0. *)
Definition ToInt32 (v : option Z) : Z :=
  match v with
  | Some z => int32 z
  | None => 0
  end.

(** [a & b], [a | b], [a << n], [a >> n]. *)
Definition js_and (a b : Z) : Z := Z.land (int32 a) (int32 b).
Definition js_or (a b : Z) : Z := Z.lor (int32 a) (int32 b).
Definition js_shl (a n : Z) : Z := int32 (Z.shiftl (int32 a) (Z.land n 31)).
Definition js_sar (a n : Z) : Z := Z.shiftr (int32 a) (Z.land n 31).

(** [v !== n] for a value that may be [undefined] and a number [n]. *)
Definition strict_ne (v : option Z) (n : Z) : bool :=
  match v with
  | Some z => negb (z =? n)
  | None => true
  end.

(** The largest integer not above a binary64 value.  [Math.floor] leaves NaN
    and the infinities as they are; they have no integer value and are mapped
    to 0 here, as is zero.  The only argument [Math.floor] receives in this
    program is a quotient of two positive table entries, which is finite
    ([frame_quotient_finite] below). *)
Definition floorSF (x : spec_float) : Z :=
  match x with
  | S754_finite s m e =>
      let whole := if 0 <=? e then Z.shiftl (Z.pos m) e else Z.shiftr (Z.pos m) (- e) in
      let exact := if 0 <=? e then true else Z.shiftl whole (- e) =? Z.pos m in
      if s then (if exact then - whole else - whole - 1) else whole
  | _ => 0
  end.

Definition Math_floor (x : float) : Z := floorSF (Prim2SF x).

(** A non-negative integer below 2^53 as a binary64 number (exact). *)
Definition number_of_Z (z : Z) : float := PrimFloat.of_uint63 (Uint63.of_Z z).

(** [a / b] on numbers. *)
Definition js_div (a b : Z) : float := PrimFloat.div (number_of_Z a) (number_of_Z b).

(** ** The data model *)

Record FrameHeader : Type := {
  version : Z;
  layer : Z;
  bitrateIndex : Z;
  sampleRateIndex : Z;
  padding : bool;
  frameSize : Z
}.

(** Bitrate lookup table for MPEG Version 1 Layer 3 (in kbps): the entries
    of the object literal, and the object they make. *)
Definition bitrates : list (Z * Z) :=
  [ (1, 32); (2, 40); (3, 48); (4, 56); (5, 64); (6, 80); (7, 96);
    (8, 112); (9, 128); (10, 160); (11, 192); (12, 224); (13, 256);
    (14, 320) ].
Definition BITRATE_TABLE : gmap Z Z := list_to_map bitrates.

(** Sampling frequency lookup table for MPEG Version 1 (in Hz). *)
Definition sampleRates : list (Z * Z) := [ (0, 44100); (1, 48000); (2, 32000) ].
Definition SAMPLE_RATE_TABLE : gmap Z Z := list_to_map sampleRates.

(** ** Buffers *)

Definition byte_val (b : byte) : Z := Z.of_N (Byte.to_N b).

Definition buffer_length (buffer : list byte) : Z := Z.of_nat (length buffer).

(** [buffer[position]]: [undefined] outside the buffer. *)
Definition buffer_at (buffer : list byte) (position : Z) : option Z :=
  if position <? 0 then None
  else byte_val <$> buffer !! Z.to_nat position.

(** Reads a byte from the buffer at the given position. *)
Definition readByte (buffer : list byte) (position : Z) : outcome (option Z) :=
  if position >=? buffer_length buffer then Throw
  else Ret (buffer_at buffer position).

(** [buffer.toString('ascii', start, end)]: decoding as 'ascii' clears the
    highest bit of every byte. *)
Fixpoint asciiSlice (bs : list byte) : string :=
  match bs with
  | [] => EmptyString
  | b :: rest => String (ascii_of_N (N.land (Byte.to_N b) 127)) (asciiSlice rest)
  end.

Definition toStringAscii (buffer : list byte) (start stop : nat) : string :=
  asciiSlice (take (stop - start) (drop start buffer)).

(** ** parseFrameHeader *)

(** Checks if a position contains a valid MPEG Version 1 Layer 3 frame
    header.  [Ret None] is the [null] result.  A table entry is falsy
    ([!bitrate], [!sampleRate]) when the key is absent or the entry is 0. *)
Definition parseFrameHeader (buffer : list byte) (position : Z)
  : outcome (option FrameHeader) :=
  if position + 4 >? buffer_length buffer then Ret None
  else
    byte1 ← readByte buffer position;
    byte2 ← readByte buffer (position + 1);
    if strict_ne byte1 255 || negb (js_and (ToInt32 byte2) 224 =? 224) then Ret None
    else
      let version := js_and (js_sar (ToInt32 byte2) 3) 3 in
      if negb (version =? 3) then Ret None
      else
        let layer := js_and (js_sar (ToInt32 byte2) 1) 3 in
        if negb (layer =? 1) then Ret None
        else
          byte3 ← readByte buffer (position + 2);
          let bitrateIndex := js_and (js_sar (ToInt32 byte3) 4) 15 in
          if (bitrateIndex =? 0) || (bitrateIndex =? 15) then Ret None
          else
            let sampleRateIndex := js_and (js_sar (ToInt32 byte3) 2) 3 in
            if sampleRateIndex =? 3 then Ret None
            else
              let padding := js_and (js_sar (ToInt32 byte3) 1) 1 =? 1 in
              match BITRATE_TABLE !! bitrateIndex, SAMPLE_RATE_TABLE !! sampleRateIndex with
              | Some bitrate, Some sampleRate =>
                  if (bitrate =? 0) || (sampleRate =? 0) then Ret None
                  else
                    let frameSize :=
                      Math_floor (js_div (144 * bitrate * 1000) sampleRate)
                      + (if padding then 1 else 0) in
                    Ret (Some {| version := version;
                                 layer := layer;
                                 bitrateIndex := bitrateIndex;
                                 sampleRateIndex := sampleRateIndex;
                                 padding := padding;
                                 frameSize := frameSize |})
              | _, _ => Ret None
              end.

(** ** countMp3Frames *)

(** The two variables of the scan. *)
Record ScanState : Type := {
  position : Z;
  frameCount : Z
}.

(** How an iteration of the loop ends: at its end or a [continue], or at a
    [break]. *)
Inductive control : Type :=
  | Continue
  | Break.

(** [position++] *)
Definition advance (s : ScanState) : ScanState :=
  {| position := position s + 1; frameCount := frameCount s |}.

(** ID3v2 tag skip: the value of [position] when the loop is entered. *)
Definition initialPosition (buffer : list byte) : outcome Z :=
  if buffer_length buffer >=? 10 then
    let id3Header := toStringAscii buffer 0 3 in
    if String.eqb id3Header "ID3" then
      sizeByte6 ← readByte buffer 6;
      sizeByte7 ← readByte buffer 7;
      sizeByte8 ← readByte buffer 8;
      sizeByte9 ← readByte buffer 9;
      let id3Size :=
        js_or (js_or (js_or (js_shl (ToInt32 sizeByte6) 21)
                            (js_shl (ToInt32 sizeByte7) 14))
                     (js_shl (ToInt32 sizeByte8) 7))
              (ToInt32 sizeByte9) in
      Ret (10 + id3Size)
    else Ret 0
  else Ret 0.

(** The scan is written over the header parser it calls, so that what it does
    with each result of the parser, and at which positions it consults the
    parser, can be stated; [countMp3Frames] below is the scan over
    [parseFrameHeader]. *)
Section Scanner.

Variable parseHeader : list byte → Z → outcome (option FrameHeader).

(** The body of the [while] loop, with its [try]/[catch].  An exception
    leaves the assignments made before it in place. *)
Definition loopBody (buffer : list byte) (s : ScanState) : ScanState * control :=
  match parseHeader buffer (position s) with
  | Ret (Some header) =>
      if (frameSize header <? 4) || (frameSize header >? 1440) then
        (advance s, Continue)
      else if position s + frameSize header >? buffer_length buffer then
        ({| position := position s;
            frameCount := if position s + 4 <=? buffer_length buffer
                          then frameCount s + 1 else frameCount s |}, Break)
      else
        let counted := frameCount s + 1 in
        let nextFramePos := position s + frameSize header in
        if nextFramePos >=? buffer_length buffer - 4 then
          ({| position := position s; frameCount := counted |}, Break)
        else
          match parseHeader buffer nextFramePos with
          | Ret nextHeader =>
              if match nextHeader with
                 | Some next => (frameSize next >=? 4) && (frameSize next <=? 1440)
                 | None => false
                 end
              then ({| position := nextFramePos; frameCount := counted |}, Continue)
              else ({| position := nextFramePos; frameCount := counted |}, Continue)
          | Throw => ({| position := position s + 1; frameCount := counted |}, Continue)
          end
  | Ret None => (advance s, Continue)
  | Throw => (advance s, Continue)
  end.

(** The [while] loop; [None] when the fuel runs out before the loop
    ends. *)
Fixpoint scan (fuel : nat) (buffer : list byte) (s : ScanState) : option ScanState :=
  if position s <? buffer_length buffer - 4 then
    match fuel with
    | O => None
    | S fuel' =>
        match loopBody buffer s with
        | (s', Continue) => scan fuel' buffer s'
        | (s', Break) => Some s'
        end
    end
  else Some s.

Definition countFrames (fuel : nat) (buffer : list byte) : option (outcome Z) :=
  match initialPosition buffer with
  | Ret start =>
      s ← scan fuel buffer {| position := start; frameCount := 0 |};
      Some (Ret (frameCount s))
  | Throw => Some Throw
  end.

End Scanner.

(** Counts the number of MPEG Version 1 Audio Layer 3 frames in the buffer.
    The iterations of the loop never outnumber the bytes of the buffer
    ([scan_enough_fuel]). *)
Definition countMp3Frames (buffer : list byte) : option (outcome Z) :=
  countFrames parseFrameHeader (length buffer) buffer.

(** The buffers of the examples: the header of a 128 kbps, 44100 Hz frame
    without padding, that frame filled up with zeros to its 417 bytes, and a
    10-byte ID3v2 tag header declaring a body of [b9] bytes. *)
Definition header128 : list byte := [xff; xfb; x90; x00]%byte.
Definition frame417 : list byte := header128 ++ replicate 413 x00%byte.
Definition frames (n : nat) : list byte := mjoin (replicate n frame417).
Definition id3Tag (v1 v2 flags b9 : byte) : list byte :=
  [x49; x44; x33; v1; v2; flags; x00; x00; x00; b9]%byte.

(** The states of the two variables over a call: the state in which the loop
    is entered and the state after every iteration made, with how that
    iteration ended.  No iteration follows a [break]. *)
Inductive reachable (buffer : list byte) : ScanState → control → Prop :=
  | reach_start (start : Z) :
      initialPosition buffer = Ret start →
      reachable buffer {| position := start; frameCount := 0 |} Continue
  | reach_iteration (s s' : ScanState) (c : control) :
      reachable buffer s Continue →
      position s < buffer_length buffer - 4 →
      loopBody parseFrameHeader buffer s = (s', c) →
      reachable buffer s' c.

(** ** The scan without the lookahead

    The variant the lookahead is compared with: once an in-bounds frame is
    counted and the end of the buffer is not reached, the cursor goes to the
    expected position of the next frame, with no second call of
    [parseFrameHeader]. *)
Definition loopBodyNoLookahead (buffer : list byte) (s : ScanState)
  : ScanState * control :=
  match parseFrameHeader buffer (position s) with
  | Ret (Some header) =>
      if (frameSize header <? 4) || (frameSize header >? 1440) then
        (advance s, Continue)
      else if position s + frameSize header >? buffer_length buffer then
        ({| position := position s;
            frameCount := if position s + 4 <=? buffer_length buffer
                          then frameCount s + 1 else frameCount s |}, Break)
      else
        let counted := frameCount s + 1 in
        let nextFramePos := position s + frameSize header in
        if nextFramePos >=? buffer_length buffer - 4 then
          ({| position := position s; frameCount := counted |}, Break)
        else
          ({| position := nextFramePos; frameCount := counted |}, Continue)
  | Ret None => (advance s, Continue)
  | Throw => (advance s, Continue)
  end.

Fixpoint scanNoLookahead (fuel : nat) (buffer : list byte) (s : ScanState)
  : option ScanState :=
  if position s <? buffer_length buffer - 4 then
    match fuel with
    | O => None
    | S fuel' =>
        match loopBodyNoLookahead buffer s with
        | (s', Continue) => scanNoLookahead fuel' buffer s'
        | (s', Break) => Some s'
        end
    end
  else Some s.

Definition countMp3FramesNoLookahead (buffer : list byte) : option (outcome Z) :=
  match initialPosition buffer with
  | Ret start =>
      s ← scanNoLookahead (length buffer) buffer {| position := start; frameCount := 0 |};
      Some (Ret (frameCount s))
  | Throw => Some Throw
  end.

(** ** Auxiliary definitions for the proofs *)

(** The bit fields of the second and third header byte, on byte values. *)
Definition field (b shift mask : Z) : Z := Z.land (Z.shiftr b shift) mask.

(** The tests of [parseFrameHeader] that a header passes, on the values of
    the three bytes read: the negations of its early returns on the sync
    word, the version, the layer, the bitrate index and the sample rate
    index. *)
Definition headerChecks (byte1 byte2 byte3 : Z) : bool :=
  (byte1 =? 255) && (Z.land byte2 224 =? 224)
  && (field byte2 3 3 =? 3)
  && (field byte2 1 3 =? 1)
  && negb ((field byte3 4 15 =? 0) || (field byte3 4 15 =? 15))
  && negb (field byte3 2 3 =? 3).

(** Whether the three bytes from offset [p] on exist and pass the tests. *)
Definition validHeaderAt (buffer : list byte) (p : nat) : bool :=
  match buffer !! p, buffer !! (p + 1)%nat, buffer !! (p + 2)%nat with
  | Some b1, Some b2, Some b3 => headerChecks (byte_val b1) (byte_val b2) (byte_val b3)
  | _, _, _ => false
  end.

(** Sixteen bytes with four sync words, each followed by a header byte the
    parser rejects: MPEG version 2, bitrate index 0, bitrate index 15 and
    sample rate index 3. *)
Definition rejectedHeaders : list byte :=
  [xff; xf3; x90; x00; xff; xfb; x00; x00;
   xff; xfb; xf0; x00; xff; xfb; x9c; x00]%byte.

(** The header of the frames of the examples. *)
Definition header417 : FrameHeader :=
  {| version := 3; layer := 1; bitrateIndex := 9; sampleRateIndex := 0;
     padding := false; frameSize := 417 |}.


(** The checks of [parseFrameHeader] on the three bytes it reads, with the
    reads hoisted out: what it returns once the four bytes at the position
    are known to lie in the buffer ([parseFrameHeader_decode]). *)
Definition decodeHeader (byte1 byte2 byte3 : option Z) : option FrameHeader :=
  if strict_ne byte1 255 || negb (js_and (ToInt32 byte2) 224 =? 224) then None
  else
    let version := js_and (js_sar (ToInt32 byte2) 3) 3 in
    if negb (version =? 3) then None
    else
      let layer := js_and (js_sar (ToInt32 byte2) 1) 3 in
      if negb (layer =? 1) then None
      else
        let bitrateIndex := js_and (js_sar (ToInt32 byte3) 4) 15 in
        if (bitrateIndex =? 0) || (bitrateIndex =? 15) then None
        else
          let sampleRateIndex := js_and (js_sar (ToInt32 byte3) 2) 3 in
          if sampleRateIndex =? 3 then None
          else
            let padding := js_and (js_sar (ToInt32 byte3) 1) 1 =? 1 in
            match BITRATE_TABLE !! bitrateIndex, SAMPLE_RATE_TABLE !! sampleRateIndex with
            | Some bitrate, Some sampleRate =>
                if (bitrate =? 0) || (sampleRate =? 0) then None
                else
                  Some {| version := version;
                          layer := layer;
                          bitrateIndex := bitrateIndex;
                          sampleRateIndex := sampleRateIndex;
                          padding := padding;
                          frameSize :=
                            Math_floor (js_div (144 * bitrate * 1000) sampleRate)
                            + (if padding then 1 else 0) |}
            | _, _ => None
            end.

(** ** The upload endpoint (POST /file-upload of the server)

    What the handler sends: [res.status(n).json(body)] (with [res.json]
    answering with status 200), or the error it hands to [next]. *)
Inductive responseBody : Type :=
  | ErrorBody (error : string)
  | FrameCountBody (frameCount : Z).

Inductive response : Type :=
  | Json (status : Z) (body : responseBody)
  | Next.

Definition noFileMessage : string :=
  String.append "No file uploaded. Please upload an MP3 file using the "
    (String (ascii_of_nat 34) (String.append "file" (String (ascii_of_nat 34) " field."))).

(** The handler, from [req.file] ([None] when no file was uploaded; its
    [buffer] otherwise) to what is sent; [None] when the fuel of the scan
    runs out. *)
Definition fileUpload (file : option (list byte)) : option response :=
  match file with
  | None => Some (Json 400 (ErrorBody noFileMessage))
  | Some buffer =>
      if buffer_length buffer =? 0 then
        Some (Json 400 (ErrorBody "Uploaded file is empty"))
      else
        match countMp3Frames buffer with
        | Some (Ret frameCount) => Some (Json 200 (FrameCountBody frameCount))
        | Some Throw => Some Next
        | None => None
        end
  end.

(** A cursor state moved [offset] bytes on. *)
Definition shift (offset : Z) (s : ScanState) : ScanState :=
  {| position := offset + position s; frameCount := frameCount s |}.

(** A whole frame: bytes that start with a header parseFrameHeader accepts,
    are as many as the header's frame size, and pass the size test of the
    scan. *)
Definition wholeFrame (frame : list byte) : Prop :=
  ∃ header,
    parseFrameHeader frame 0 = Ret (Some header)
    ∧ frameSize header = buffer_length frame
    ∧ frameSize header <= 1440.

(** ** Basic facts *)

Lemma byte_val_range (b : byte) : 0 <= byte_val b < 256.
Proof.
  unfold byte_val. pose proof (Byte.to_N_bounded b). lia.
Qed.

Lemma int32_id (z : Z) : - 2 ^ 31 <= z < 2 ^ 31 → int32 z = z.
Proof.
  intros Hz. unfold int32.
  change (2 ^ 31) with 2147483648 in *. change (2 ^ 32) with 4294967296.
  rewrite Z.mod_small; lia.
Qed.

Lemma shiftr_byte_range (b k : Z) : 0 <= b < 256 → 0 <= k → 0 <= Z.shiftr b k < 256.
Proof.
  intros Hb Hk. rewrite Z.shiftr_div_pow2 by lia.
  assert (0 < 2 ^ k) by (apply Z.pow_pos_nonneg; lia).
  split; [apply Z.div_pos; lia|].
  apply Z.le_lt_trans with b; [|lia].
  apply Z.div_le_upper_bound; nia.
Qed.

(** On a byte, the 32-bit operators of a field extraction do not wrap. *)
Lemma js_field (b shift mask : Z) :
  0 <= b < 256 → 0 <= shift < 32 → 0 <= mask < 256 →
  js_and (js_sar (int32 b) shift) mask = field b shift mask.
Proof.
  intros Hb Hs Hm. unfold js_and, js_sar, field.
  assert (Z.land shift 31 = shift) as ->.
  { change 31 with (Z.ones 5). rewrite Z.land_ones by lia.
    apply Z.mod_small. change (2 ^ 5) with 32. lia. }
  pose proof (shiftr_byte_range b shift Hb (proj1 Hs)).
  rewrite !(int32_id b), (int32_id (Z.shiftr b shift)), (int32_id mask)
    by (change (2 ^ 31) with 2147483648; lia).
  reflexivity.
Qed.

Lemma js_and_byte (b mask : Z) :
  0 <= b < 256 → 0 <= mask < 256 → js_and (int32 b) mask = Z.land b mask.
Proof.
  intros Hb Hm. unfold js_and.
  rewrite !(int32_id b), (int32_id mask) by (change (2 ^ 31) with 2147483648; lia).
  reflexivity.
Qed.

Lemma buffer_at_inside (buffer : list byte) (p : Z) :
  0 <= p < buffer_length buffer →
  ∃ b, buffer !! Z.to_nat p = Some b ∧ buffer_at buffer p = Some (byte_val b).
Proof.
  intros Hp. unfold buffer_at, buffer_length in *.
  destruct (buffer !! Z.to_nat p) as [b|] eqn:Hb.
  - exists b. destruct (Z.ltb_spec p 0); [lia|done].
  - apply lookup_ge_None in Hb. lia.
Qed.

Lemma buffer_at_outside (buffer : list byte) (p : Z) :
  p < 0 ∨ buffer_length buffer <= p → buffer_at buffer p = None.
Proof.
  intros Hp. unfold buffer_at, buffer_length in *.
  destruct (Z.ltb_spec p 0); [done|].
  rewrite (lookup_ge_None_2 buffer (Z.to_nat p)) by lia. done.
Qed.

Lemma buffer_at_lookup (buffer : list byte) (n : nat) :
  buffer_at buffer (Z.of_nat n) = byte_val <$> buffer !! n.
Proof.
  unfold buffer_at. destruct (Z.ltb_spec (Z.of_nat n) 0); [lia|]. by rewrite Nat2Z.id.
Qed.

Lemma readByte_inside (buffer : list byte) (p : Z) :
  p < buffer_length buffer → readByte buffer p = Ret (buffer_at buffer p).
Proof.
  intros Hp. unfold readByte.
  destruct (Z.geb_spec p (buffer_length buffer)); [lia|done].
Qed.

Lemma readByte_outside (buffer : list byte) (p : Z) :
  buffer_length buffer <= p → readByte buffer p = Throw.
Proof.
  intros Hp. unfold readByte.
  destruct (Z.geb_spec p (buffer_length buffer)); [done|lia].
Qed.

(** Once the four bytes of a header lie below the end of the buffer, the
    reads of [parseFrameHeader] do not throw and it decodes the three bytes
    it reads. *)
Lemma parseFrameHeader_decode (buffer : list byte) (p : Z) :
  p + 4 <= buffer_length buffer →
  parseFrameHeader buffer p =
    Ret (decodeHeader (buffer_at buffer p) (buffer_at buffer (p + 1))
           (buffer_at buffer (p + 2))).
Proof.
  intros Hp. unfold parseFrameHeader, decodeHeader.
  destruct (Z.gtb_spec (p + 4) (buffer_length buffer)); [lia|].
  rewrite !readByte_inside by lia. cbn [mbind outcome_bind].
  repeat (case_match; try reflexivity).
Qed.

Lemma parseFrameHeader_short (buffer : list byte) (p : Z) :
  buffer_length buffer < p + 4 → parseFrameHeader buffer p = Ret None.
Proof.
  intros Hp. unfold parseFrameHeader.
  destruct (Z.gtb_spec (p + 4) (buffer_length buffer)); [done|lia].
Qed.

(** [parseFrameHeader] never throws: its first test keeps every read inside
    the buffer. *)
Lemma parseFrameHeader_no_throw (buffer : list byte) (p : Z) :
  parseFrameHeader buffer p ≠ Throw.
Proof.
  destruct (Z_lt_le_dec (buffer_length buffer) (p + 4)).
  - by rewrite parseFrameHeader_short.
  - by rewrite parseFrameHeader_decode.
Qed.

(** ** The lookup tables and the frame-size division *)

Lemma BITRATE_TABLE_entry (i v : Z) :
  BITRATE_TABLE !! i = Some v → (i, v) ∈ bitrates.
Proof. apply (elem_of_list_to_map_2 (M := gmap Z)). Qed.

Lemma SAMPLE_RATE_TABLE_entry (i v : Z) :
  SAMPLE_RATE_TABLE !! i = Some v → (i, v) ∈ sampleRates.
Proof. apply (elem_of_list_to_map_2 (M := gmap Z)). Qed.

Ltac table_cases Hv Hr :=
  unfold bitrates, sampleRates in Hv, Hr;
  repeat (apply elem_of_cons in Hv as [Hv|Hv]; [injection Hv as -> ->|]);
  try (by apply elem_of_nil in Hv);
  repeat (apply elem_of_cons in Hr as [Hr|Hr]; [injection Hr as -> ->|]);
  try (by apply elem_of_nil in Hr).

(** The binary64 quotient of the frame-size formula, floored, is the integer
    quotient, for every pair of table entries. *)
Lemma frame_quotient_exact (i v j r : Z) :
  (i, v) ∈ bitrates → (j, r) ∈ sampleRates →
  Math_floor (js_div (144 * v * 1000) r) = (144 * v * 1000) `div` r.
Proof.
  intros Hv Hr. table_cases Hv Hr; vm_compute; reflexivity.
Qed.

(** That quotient is a finite number, so [Math_floor] is applied inside its
    domain. *)
Lemma frame_quotient_finite (i v j r : Z) :
  (i, v) ∈ bitrates → (j, r) ∈ sampleRates →
  PrimFloat.is_finite (js_div (144 * v * 1000) r) = true.
Proof.
  intros Hv Hr. table_cases Hv Hr; vm_compute; reflexivity.
Qed.

Lemma table_entries_positive (i v j r : Z) :
  (i, v) ∈ bitrates → (j, r) ∈ sampleRates →
  (1 <= i <= 14 ∧ 0 < v) ∧ (0 <= j <= 2 ∧ 0 < r).
Proof.
  intros Hv Hr. table_cases Hv Hr; lia.
Qed.

(** ** What parseFrameHeader accepts *)

Ltac byte_fields :=
  unfold decodeHeader; cbn [ToInt32 strict_ne];
  rewrite ?js_field, ?js_and_byte by lia.

(** The header that the bytes [b1 b2 b3] decode to, when they decode. *)
Lemma decodeHeader_Some (b1 b2 b3 : Z) (h : FrameHeader) :
  0 <= b1 < 256 → 0 <= b2 < 256 → 0 <= b3 < 256 →
  decodeHeader (Some b1) (Some b2) (Some b3) = Some h →
  (b1 = 255 ∧ Z.land b2 224 = 224 ∧ field b2 3 3 = 3 ∧ field b2 1 3 = 1
   ∧ field b3 4 15 ≠ 0 ∧ field b3 4 15 ≠ 15 ∧ field b3 2 3 ≠ 3)
  ∧ version h = 3 ∧ layer h = 1
  ∧ bitrateIndex h = field b3 4 15
  ∧ sampleRateIndex h = field b3 2 3
  ∧ padding h = (field b3 1 1 =? 1)
  ∧ ∃ bitrate sampleRate,
      BITRATE_TABLE !! bitrateIndex h = Some bitrate
      ∧ SAMPLE_RATE_TABLE !! sampleRateIndex h = Some sampleRate
      ∧ frameSize h = (144 * bitrate * 1000) `div` sampleRate
                      + (if padding h then 1 else 0).
Proof.
  intros H1 H2 H3. byte_fields.
  destruct (Z.eqb_spec b1 255); [|done]. cbn [negb orb].
  destruct (Z.eqb_spec (Z.land b2 224) 224); [|done]. cbn [negb].
  destruct (Z.eqb_spec (field b2 3 3) 3) as [Hv|]; [|done]. cbn [negb].
  destruct (Z.eqb_spec (field b2 1 3) 1) as [Hl|]; [|done]. cbn [negb].
  destruct (Z.eqb_spec (field b3 4 15) 0); [done|].
  destruct (Z.eqb_spec (field b3 4 15) 15); [done|]. cbn [orb].
  destruct (Z.eqb_spec (field b3 2 3) 3); [done|].
  destruct (BITRATE_TABLE !! field b3 4 15) as [bitrate|] eqn:Hb; [|done].
  destruct (SAMPLE_RATE_TABLE !! field b3 2 3) as [sampleRate|] eqn:Hs; [|done].
  pose proof (BITRATE_TABLE_entry _ _ Hb) as Hb'.
  pose proof (SAMPLE_RATE_TABLE_entry _ _ Hs) as Hs'.
  destruct (table_entries_positive _ _ _ _ Hb' Hs') as [[_ ?] [_ ?]].
  destruct (Z.eqb_spec bitrate 0); [lia|].
  destruct (Z.eqb_spec sampleRate 0); [lia|]. cbn [orb].
  intros [= <-]. cbn [version layer bitrateIndex sampleRateIndex padding frameSize].
  rewrite Hv, Hl. repeat split; try done.
  exists bitrate, sampleRate. repeat split; try done.
  by rewrite (frame_quotient_exact _ _ _ _ Hb' Hs').
Qed.

Lemma decodeHeader_None (b1 b2 b3 : Z) :
  0 <= b1 < 256 → 0 <= b2 < 256 → 0 <= b3 < 256 →
  b1 ≠ 255 ∨ Z.land b2 224 ≠ 224 ∨ field b2 3 3 ≠ 3 ∨ field b2 1 3 ≠ 1
  ∨ field b3 4 15 = 0 ∨ field b3 4 15 = 15 ∨ field b3 2 3 = 3 →
  decodeHeader (Some b1) (Some b2) (Some b3) = None.
Proof.
  intros H1 H2 H3 Hrej.
  destruct (decodeHeader (Some b1) (Some b2) (Some b3)) as [h|] eqn:Hd; [|done].
  apply decodeHeader_Some in Hd as [(? & ? & ? & ? & ? & ? & ?) _]; [|done..].
  lia.
Qed.

(** A header is found only where four bytes are left, and it is the decoding
    of the first three of them. *)
Lemma parseFrameHeader_Some (buffer : list byte) (p : Z) (h : FrameHeader) :
  parseFrameHeader buffer p = Ret (Some h) →
  0 <= p ∧ p + 4 <= buffer_length buffer
  ∧ ∃ b1 b2 b3,
      buffer !! Z.to_nat p = Some b1
      ∧ buffer !! Z.to_nat (p + 1) = Some b2
      ∧ buffer !! Z.to_nat (p + 2) = Some b3
      ∧ decodeHeader (Some (byte_val b1)) (Some (byte_val b2)) (Some (byte_val b3)) = Some h.
Proof.
  intros Hparse.
  destruct (Z_lt_le_dec (buffer_length buffer) (p + 4)) as [Hshort|Hfit].
  { by rewrite parseFrameHeader_short in Hparse. }
  rewrite parseFrameHeader_decode in Hparse by done.
  injection Hparse as Hd.
  destruct (Z_lt_le_dec p 0) as [Hneg|Hpos].
  { rewrite (buffer_at_outside buffer p) in Hd by lia. done. }
  destruct (buffer_at_inside buffer p) as (b1 & Hl1 & Hb1); [lia|].
  destruct (buffer_at_inside buffer (p + 1)) as (b2 & Hl2 & Hb2); [lia|].
  destruct (buffer_at_inside buffer (p + 2)) as (b3 & Hl3 & Hb3); [lia|].
  rewrite Hb1, Hb2, Hb3 in Hd. eauto 10.
Qed.

(** The same from the bytes: where the three bytes are known, the result is
    their decoding, provided a fourth byte follows. *)
Lemma parseFrameHeader_bytes (buffer : list byte) (p : nat) (b1 b2 b3 : byte) :
  buffer !! p = Some b1 → buffer !! (p + 1)%nat = Some b2 →
  buffer !! (p + 2)%nat = Some b3 →
  Z.of_nat p + 4 <= buffer_length buffer →
  parseFrameHeader buffer (Z.of_nat p) =
    Ret (decodeHeader (Some (byte_val b1)) (Some (byte_val b2)) (Some (byte_val b3))).
Proof.
  intros Hl1 Hl2 Hl3 Hfit. rewrite parseFrameHeader_decode by done.
  replace (Z.of_nat p + 1) with (Z.of_nat (p + 1)) by lia.
  replace (Z.of_nat p + 2) with (Z.of_nat (p + 2)) by lia.
  by rewrite !buffer_at_lookup, Hl1, Hl2, Hl3.
Qed.

(** ** The loop body, for any header parser *)

Section ScannerFacts.

Variable parseHeader : list byte → Z → outcome (option FrameHeader).

(** An iteration that does not leave the loop moves the cursor forward. *)
Lemma loopBody_progress (buffer : list byte) (s s' : ScanState) :
  loopBody parseHeader buffer s = (s', Continue) → position s < position s'.
Proof.
  unfold loopBody, advance. intros Hbody.
  repeat case_match; simplify_eq; cbn; lia.
Qed.

(** An iteration counts at most one frame and never uncounts. *)
Lemma loopBody_count (buffer : list byte) (s s' : ScanState) (c : control) :
  loopBody parseHeader buffer s = (s', c) →
  frameCount s <= frameCount s' <= frameCount s + 1.
Proof.
  unfold loopBody, advance. intros Hbody.
  repeat case_match; simplify_eq; cbn; lia.
Qed.

(** An iteration entered below [length - 4] leaves the cursor within the
    buffer. *)
Lemma loopBody_position (buffer : list byte) (s s' : ScanState) (c : control) :
  position s < buffer_length buffer - 4 →
  loopBody parseHeader buffer s = (s', c) →
  position s' <= buffer_length buffer.
Proof.
  unfold loopBody, advance. intros Hguard Hbody.
  repeat case_match; simplify_eq; cbn; lia.
Qed.

End ScannerFacts.

(** ** The ID3v2 tag skip *)

Lemma lor_range (a b n : Z) :
  0 <= a < 2 ^ n → 0 <= b < 2 ^ n → 0 <= Z.lor a b < 2 ^ n.
Proof.
  intros Ha Hb.
  assert (0 <= Z.lor a b) as Hnn by (apply Z.lor_nonneg; lia).
  split; [done|].
  destruct (Z.eq_dec (Z.lor a b) 0) as [->|Hne]; [lia|].
  destruct (Z_lt_le_dec n 0) as [Hn|Hn].
  { rewrite Z.pow_neg_r in Ha by done. lia. }
  apply Z.log2_lt_pow2; [lia|].
  rewrite Z.log2_lor by lia.
  assert (∀ x, 0 <= x < 2 ^ n → Z.lor a b ≠ 0 → Z.log2 x < n) as Hlog.
  { intros x Hx _. destruct (Z.eq_dec x 0) as [->|].
    - change (Z.log2 0) with 0.
      destruct (Z.eq_dec n 0) as [->|]; [|lia].
      change (2 ^ 0) with 1 in *. assert (a = 0) as -> by lia.
      assert (b = 0) as -> by lia. done.
    - apply Z.log2_lt_pow2; lia. }
  apply Z.max_lub_lt; apply Hlog; done.
Qed.

Lemma js_shl_byte (b k : Z) :
  0 <= b < 256 → 0 <= k <= 21 →
  js_shl (int32 b) k = Z.shiftl b k ∧ 0 <= Z.shiftl b k < 2 ^ 29.
Proof.
  intros Hb Hk. unfold js_shl.
  assert (Z.land k 31 = k) as ->.
  { change 31 with (Z.ones 5). rewrite Z.land_ones by lia.
    apply Z.mod_small. change (2 ^ 5) with 32. lia. }
  assert (0 <= Z.shiftl b k < 2 ^ 29) as Hr.
  { rewrite Z.shiftl_mul_pow2 by lia.
    assert (0 < 2 ^ k <= 2 ^ 21) by (split; [apply Z.pow_pos_nonneg|apply Z.pow_le_mono_r]; lia).
    change (2 ^ 29) with (256 * 2 ^ 21). nia. }
  split; [|done].
  change (2 ^ 29) with 536870912 in Hr.
  rewrite !(int32_id b), int32_id by (change (2 ^ 31) with 2147483648; lia).
  reflexivity.
Qed.

Lemma js_or_small (a b : Z) :
  0 <= a < 2 ^ 29 → 0 <= b < 2 ^ 29 →
  js_or a b = Z.lor a b ∧ 0 <= Z.lor a b < 2 ^ 29.
Proof.
  intros Ha Hb. split; [|by apply lor_range].
  unfold js_or. change (2 ^ 29) with 536870912 in *.
  rewrite !int32_id by (change (2 ^ 31) with 2147483648; lia). reflexivity.
Qed.

(** The synchsafe size of four bytes, as the code computes it with 32-bit
    operators, is the plain shift-and-or of the bytes: nothing wraps. *)
Lemma id3Size_no_wrap (b6 b7 b8 b9 : Z) :
  0 <= b6 < 256 → 0 <= b7 < 256 → 0 <= b8 < 256 → 0 <= b9 < 256 →
  js_or (js_or (js_or (js_shl (int32 b6) 21) (js_shl (int32 b7) 14))
               (js_shl (int32 b8) 7)) (int32 b9)
  = Z.lor (Z.lor (Z.lor (Z.shiftl b6 21) (Z.shiftl b7 14)) (Z.shiftl b8 7)) b9
  ∧ 0 <= Z.lor (Z.lor (Z.lor (Z.shiftl b6 21) (Z.shiftl b7 14)) (Z.shiftl b8 7)) b9.
Proof.
  intros H6 H7 H8 H9.
  destruct (js_shl_byte b6 21) as [-> ?]; [lia..|].
  destruct (js_shl_byte b7 14) as [-> ?]; [lia..|].
  destruct (js_shl_byte b8 7) as [-> ?]; [lia..|].
  rewrite (int32_id b9) by (change (2 ^ 31) with 2147483648; lia).
  destruct (js_or_small (Z.shiftl b6 21) (Z.shiftl b7 14)) as [-> ?]; [done..|].
  destruct (js_or_small (Z.lor (Z.shiftl b6 21) (Z.shiftl b7 14)) (Z.shiftl b8 7))
    as [-> ?]; [done..|].
  destruct (js_or_small (Z.lor (Z.lor (Z.shiftl b6 21) (Z.shiftl b7 14)) (Z.shiftl b8 7)) b9)
    as [-> ?]; [done| change (2 ^ 29) with 536870912; lia |].
  split; [done|lia].
Qed.

(** The tag skip never throws and never yields a negative start. *)
Lemma initialPosition_returns (buffer : list byte) :
  ∃ start, initialPosition buffer = Ret start ∧ 0 <= start.
Proof.
  unfold initialPosition.
  destruct (Z.geb_spec (buffer_length buffer) 10) as [Hlen|]; [|by exists 0].
  destruct (toStringAscii buffer 0 3 =? "ID3")%string; [|by exists 0].
  rewrite !readByte_inside by lia. cbn [mbind outcome_bind].
  destruct (buffer_at_inside buffer 6) as (b6 & _ & ->); [lia|].
  destruct (buffer_at_inside buffer 7) as (b7 & _ & ->); [lia|].
  destruct (buffer_at_inside buffer 8) as (b8 & _ & ->); [lia|].
  destruct (buffer_at_inside buffer 9) as (b9 & _ & ->); [lia|].
  cbn [ToInt32].
  destruct (id3Size_no_wrap (byte_val b6) (byte_val b7) (byte_val b8) (byte_val b9))
    as [-> ?]; [apply byte_val_range..|].
  eexists. split; [done|lia].
Qed.

(** ** The loop, for any header parser *)

Section ScanFacts.

Variable parseHeader : list byte → Z → outcome (option FrameHeader).

Lemma scan_done (fuel : nat) (buffer : list byte) (s : ScanState) :
  buffer_length buffer - 4 <= position s →
  scan parseHeader fuel buffer s = Some s.
Proof.
  intros Hend. destruct fuel; cbn [scan];
    by destruct (Z.ltb_spec (position s) (buffer_length buffer - 4)); [lia|].
Qed.

Lemma scan_step (fuel : nat) (buffer : list byte) (s : ScanState) :
  position s < buffer_length buffer - 4 →
  scan parseHeader (S fuel) buffer s =
    match loopBody parseHeader buffer s with
    | (s', Continue) => scan parseHeader fuel buffer s'
    | (s', Break) => Some s'
    end.
Proof.
  intros Hguard. cbn [scan].
  by destruct (Z.ltb_spec (position s) (buffer_length buffer - 4)); [|lia].
Qed.

(** The loop ends within as many iterations as bytes lie between the
    cursor and [length - 4]. *)
Lemma scan_enough_fuel (fuel : nat) (buffer : list byte) (s : ScanState) :
  buffer_length buffer - 4 - position s <= Z.of_nat fuel →
  is_Some (scan parseHeader fuel buffer s).
Proof.
  revert s. induction fuel as [|fuel IH]; intros s Hfuel.
  - rewrite scan_done by lia. done.
  - destruct (Z_lt_le_dec (position s) (buffer_length buffer - 4)) as [Hguard|Hend].
    + rewrite scan_step by done.
      destruct (loopBody parseHeader buffer s) as [s' []] eqn:Hbody; [|done].
      apply loopBody_progress in Hbody. apply IH. lia.
    + rewrite scan_done by lia. done.
Qed.

(** More fuel does not change a result. *)
Lemma scan_fuel_mono (fuel fuel' : nat) (buffer : list byte) (s r : ScanState) :
  scan parseHeader fuel buffer s = Some r → (fuel <= fuel')%nat →
  scan parseHeader fuel' buffer s = Some r.
Proof.
  revert fuel' s. induction fuel as [|fuel IH]; intros fuel' s Hscan Hle.
  - destruct (Z_lt_le_dec (position s) (buffer_length buffer - 4)) as [Hguard|Hend].
    + cbn [scan] in Hscan.
      by destruct (Z.ltb_spec (position s) (buffer_length buffer - 4)); [|lia].
    + rewrite scan_done in Hscan |- * by lia. done.
  - destruct (Z_lt_le_dec (position s) (buffer_length buffer - 4)) as [Hguard|Hend].
    + destruct fuel' as [|fuel']; [lia|].
      rewrite scan_step in Hscan |- * by done.
      destruct (loopBody parseHeader buffer s) as [s' []]; [|done].
      apply IH; [done|lia].
    + rewrite scan_done in Hscan |- * by lia. done.
Qed.

(** The count only grows during the loop. *)
Lemma scan_count (fuel : nat) (buffer : list byte) (s r : ScanState) :
  scan parseHeader fuel buffer s = Some r → frameCount s <= frameCount r.
Proof.
  revert s. induction fuel as [|fuel IH]; intros s Hscan.
  - destruct (Z_lt_le_dec (position s) (buffer_length buffer - 4)) as [Hguard|Hend].
    + cbn [scan] in Hscan.
      by destruct (Z.ltb_spec (position s) (buffer_length buffer - 4)); [|lia].
    + rewrite scan_done in Hscan by lia. by simplify_eq.
  - destruct (Z_lt_le_dec (position s) (buffer_length buffer - 4)) as [Hguard|Hend].
    + rewrite scan_step in Hscan by done.
      destruct (loopBody parseHeader buffer s) as [s' []] eqn:Hbody;
        apply loopBody_count in Hbody.
      * apply IH in Hscan. lia.
      * simplify_eq. lia.
    + rewrite scan_done in Hscan by lia. by simplify_eq.
Qed.

(** The scan returns a count, and the count is not negative, whatever the
    parser answers or throws. *)
Lemma countFrames_returns (buffer : list byte) :
  ∃ n, countFrames parseHeader (length buffer) buffer = Some (Ret n) ∧ 0 <= n.
Proof.
  unfold countFrames.
  destruct (initialPosition_returns buffer) as (start & -> & Hstart).
  destruct (scan_enough_fuel (length buffer) buffer
              {| position := start; frameCount := 0 |}) as [r Hr].
  { unfold buffer_length. cbn. lia. }
  rewrite Hr. cbn. exists (frameCount r). split; [done|].
  apply scan_count in Hr. cbn in Hr. done.
Qed.

(** Any fuel from the buffer length on gives the count that
    [length buffer] gives. *)
Lemma countFrames_fuel (fuel : nat) (buffer : list byte) :
  (length buffer <= fuel)%nat →
  countFrames parseHeader fuel buffer = countFrames parseHeader (length buffer) buffer.
Proof.
  intros Hfuel. unfold countFrames.
  destruct (initialPosition_returns buffer) as (start & -> & Hstart).
  destruct (scan_enough_fuel (length buffer) buffer
              {| position := start; frameCount := 0 |}) as [r Hr].
  { unfold buffer_length. cbn. lia. }
  by rewrite (scan_fuel_mono _ _ _ _ _ Hr Hfuel), Hr.
Qed.

(** A start at or beyond [length - 4] gives no frame: the loop is not
    entered. *)
Lemma countFrames_start_beyond (buffer : list byte) (start : Z) :
  initialPosition buffer = Ret start →
  buffer_length buffer - 4 <= start →
  countFrames parseHeader (length buffer) buffer = Some (Ret 0).
Proof.
  intros Hstart Hbeyond. unfold countFrames. rewrite Hstart.
  by rewrite scan_done.
Qed.

End ScanFacts.

(** ** Back-to-back constant-bitrate frames *)

Lemma frames_succ (n : nat) : frames (S n) = frame417 ++ frames n.
Proof. reflexivity. Qed.

Lemma frame417_length : length frame417 = 417%nat.
Proof. reflexivity. Qed.

Lemma frames_length (n : nat) : length (frames n) = (417 * n)%nat.
Proof.
  induction n as [|n IH]; [done|].
  rewrite frames_succ, length_app, frame417_length, IH. lia.
Qed.

Lemma frames_lookup (n k j : nat) :
  (k < n)%nat → (j < 417)%nat → frames n !! (417 * k + j)%nat = frame417 !! j.
Proof.
  revert k. induction n as [|n IH]; intros k Hk Hj; [lia|].
  rewrite frames_succ. destruct k as [|k].
  - rewrite lookup_app_l by (rewrite frame417_length; lia).
    reflexivity.
  - rewrite lookup_app_r by (rewrite frame417_length; lia).
    rewrite frame417_length.
    replace (417 * S k + j - 417)%nat with (417 * k + j)%nat by lia.
    apply IH; lia.
Qed.

Lemma decodeHeader_header128 :
  decodeHeader (Some (byte_val xff)) (Some (byte_val xfb)) (Some (byte_val x90))
  = Some header417.
Proof. vm_compute. reflexivity. Qed.

(** Every frame of [frames n] starts with a header that parses. *)
Lemma parseFrameHeader_frames (n k : nat) :
  (k < n)%nat →
  parseFrameHeader (frames n) (417 * Z.of_nat k) = Ret (Some header417).
Proof.
  intros Hk.
  replace (417 * Z.of_nat k) with (Z.of_nat (417 * k + 0)) by lia.
  rewrite (parseFrameHeader_bytes _ _ xff xfb x90).
  - by rewrite decodeHeader_header128.
  - by rewrite frames_lookup by lia.
  - replace (417 * k + 0 + 1)%nat with (417 * k + 1)%nat by lia.
    by rewrite frames_lookup by lia.
  - replace (417 * k + 0 + 2)%nat with (417 * k + 2)%nat by lia.
    by rewrite frames_lookup by lia.
  - unfold buffer_length. rewrite frames_length. lia.
Qed.

Lemma frames_buffer_length (n : nat) : buffer_length (frames n) = 417 * Z.of_nat n.
Proof. unfold buffer_length. rewrite frames_length. lia. Qed.

(** One iteration at the start of frame [k]: the frame is counted; the loop
    ends when it was the last one and goes on at the next frame otherwise. *)
Lemma loopBody_frames (n k : nat) (count : Z) :
  (k < n)%nat →
  loopBody parseFrameHeader (frames n)
    {| position := 417 * Z.of_nat k; frameCount := count |}
  = if decide (S k = n)
    then ({| position := 417 * Z.of_nat k; frameCount := count + 1 |}, Break)
    else ({| position := 417 * Z.of_nat (S k); frameCount := count + 1 |}, Continue).
Proof.
  intros Hk. unfold loopBody. cbn [position frameCount].
  rewrite parseFrameHeader_frames by done.
  cbn [frameSize header417]. rewrite frames_buffer_length.
  change ((417 <? 4) || (417 >? 1440)) with false. cbn match.
  destruct (Z.gtb_spec (417 * Z.of_nat k + 417) (417 * Z.of_nat n)); [lia|].
  destruct (Z.geb_spec (417 * Z.of_nat k + 417) (417 * Z.of_nat n - 4)).
  - destruct (decide (S k = n)); [done|lia].
  - destruct (decide (S k = n)); [lia|].
    replace (417 * Z.of_nat k + 417) with (417 * Z.of_nat (S k)) by lia.
    destruct (parseFrameHeader (frames n) (417 * Z.of_nat (S k))) as [next|] eqn:Hnext.
    + by destruct (match next with Some _ => _ | None => _ end).
    + by apply parseFrameHeader_no_throw in Hnext.
Qed.

(** From the start of frame [k] the loop counts the [n - k] frames left. *)
Lemma scan_frames (n d k fuel : nat) :
  (k + d = n)%nat → (d <= fuel)%nat →
  ∃ r, scan parseFrameHeader fuel (frames n)
         {| position := 417 * Z.of_nat k; frameCount := Z.of_nat k |} = Some r
       ∧ frameCount r = Z.of_nat n.
Proof.
  revert k fuel. induction d as [|d IH]; intros k fuel Hkd Hfuel.
  - eexists. split.
    + apply scan_done. rewrite frames_buffer_length. cbn. lia.
    + cbn. lia.
  - destruct fuel as [|fuel]; [lia|].
    rewrite scan_step by (rewrite frames_buffer_length; cbn; lia).
    rewrite loopBody_frames by lia.
    destruct (decide (S k = n)).
    + eexists. split; [done|]. cbn. lia.
    + replace (Z.of_nat k + 1) with (Z.of_nat (S k)) by lia.
      apply IH; lia.
Qed.

Lemma initialPosition_frames (n : nat) : initialPosition (frames n) = Ret 0.
Proof.
  unfold initialPosition.
  destruct (Z.geb_spec (buffer_length (frames n)) 10) as [Hlen|]; [|done].
  destruct n as [|n]; [done|]. reflexivity.
Qed.

(** C1: for every N (N >= 1 in particular), the buffer made of N back-to-back
    417-byte frames, each the header 0xFF 0xFB 0x90 0x00 followed by 413
    zero bytes, makes countMp3Frames return N; for N = 1 the buffer is the
    single frame. *)
Theorem countMp3Frames_frames :
  (∀ N : nat, countMp3Frames (frames N) = Some (Ret (Z.of_nat N)))
  ∧ frames 1 = frame417
  ∧ countMp3Frames frame417 = Some (Ret 1).
Proof.
  assert (∀ N : nat, countMp3Frames (frames N) = Some (Ret (Z.of_nat N))) as Hall.
  { intros N. unfold countMp3Frames, countFrames. rewrite initialPosition_frames.
    destruct (scan_frames N N 0 (length (frames N))) as (r & Hr & Hcount).
    - lia.
    - rewrite frames_length. lia.
    - change (417 * Z.of_nat 0) with 0 in Hr. change (Z.of_nat 0) with 0 in Hr.
      rewrite Hr. cbn. by rewrite Hcount. }
  split; [exact Hall|]. split; [reflexivity|]. exact (Hall 1%nat).
Qed.

(** ** The cursor and the count over a call *)

(** The state the loop ends in is one of the states of the call. *)
Lemma scan_reachable (fuel : nat) (buffer : list byte) (s r : ScanState) :
  reachable buffer s Continue →
  scan parseFrameHeader fuel buffer s = Some r →
  ∃ c, reachable buffer r c.
Proof.
  revert s. induction fuel as [|fuel IH]; intros s Hs Hscan.
  - destruct (Z_lt_le_dec (position s) (buffer_length buffer - 4)) as [Hguard|Hend].
    + cbn [scan] in Hscan.
      by destruct (Z.ltb_spec (position s) (buffer_length buffer - 4)); [|lia].
    + rewrite scan_done in Hscan by lia. simplify_eq. eauto.
  - destruct (Z_lt_le_dec (position s) (buffer_length buffer - 4)) as [Hguard|Hend].
    + rewrite scan_step in Hscan by done.
      destruct (loopBody parseFrameHeader buffer s) as [s' c] eqn:Hbody.
      pose proof (reach_iteration buffer s s' c Hs Hguard Hbody) as Hs'.
      destruct c; [by eapply IH|]. simplify_eq. eauto.
    + rewrite scan_done in Hscan by lia. simplify_eq. eauto.
Qed.

(** C2 (as the code has it): over a call, the frame count is never negative,
    and the cursor never exceeds the larger of the buffer length and the
    offset at which the ID3 tag skip lets the scan start.  The skip itself is
    not bounded by the buffer length. *)
Theorem cursor_and_count_bounds (buffer : list byte) (start : Z) (s : ScanState) (c : control) :
  initialPosition buffer = Ret start →
  reachable buffer s c →
  0 <= frameCount s ∧ position s <= Z.max (buffer_length buffer) start.
Proof.
  intros Hstart Hreach. induction Hreach as [start' Hstart'|s s' c Hs IH Hguard Hbody].
  - rewrite Hstart in Hstart'. simplify_eq. cbn. lia.
  - pose proof (loopBody_count _ _ _ _ _ Hbody).
    pose proof (loopBody_position _ _ _ _ _ Hguard Hbody). lia.
Qed.

Lemma cursor_and_count_bounds_witness :
  initialPosition (id3Tag x03 x00 x00 x01) = Ret 11
  ∧ reachable (id3Tag x03 x00 x00 x01) {| position := 11; frameCount := 0 |} Continue
  ∧ 0 <= 0 ∧ 11 <= Z.max 10 11.
Proof.
  split; [reflexivity|]. split; [by apply reach_start|].
  apply (cursor_and_count_bounds (id3Tag x03 x00 x00 x01) 11
           {| position := 11; frameCount := 0 |} Continue).
  - reflexivity.
  - apply reach_start. reflexivity.
Defined.

(** C2 as stated fails: after the skip of an ID3 tag that declares one byte
    of body in a buffer of ten bytes, the cursor is 11. *)
Lemma cursor_exceeds_buffer_length :
  ¬ (∀ (buffer : list byte) (s : ScanState) (c : control),
       reachable buffer s c →
       0 <= frameCount s ∧ position s <= buffer_length buffer).
Proof.
  intros Hbound.
  destruct (Hbound (id3Tag x03 x00 x00 x01) {| position := 11; frameCount := 0 |} Continue)
    as [_ Hpos].
  - apply reach_start. reflexivity.
  - change (11 <= 10) in Hpos. lia.
Qed.

(** ** The positions the scan consults the parser at *)

Section TwoParsers.

Variables parse1 parse2 : list byte → Z → outcome (option FrameHeader).
Variable buffer : list byte.

(** An iteration asks the parser about the cursor and, at most, about one
    later position below [length - 4]. *)
Lemma loopBody_ext (s : ScanState) :
  (∀ p, position s <= p < buffer_length buffer - 4 → parse1 buffer p = parse2 buffer p) →
  position s < buffer_length buffer - 4 →
  loopBody parse1 buffer s = loopBody parse2 buffer s.
Proof.
  intros Hagree Hguard. unfold loopBody.
  rewrite (Hagree (position s)) by lia.
  destruct (parse2 buffer (position s)) as [[header|]|]; [|done..].
  destruct ((frameSize header <? 4) || (frameSize header >? 1440)) eqn:Hsize; [done|].
  destruct (Z.gtb_spec (position s + frameSize header) (buffer_length buffer)); [done|].
  destruct (Z.geb_spec (position s + frameSize header) (buffer_length buffer - 4)); [done|].
  rewrite (Hagree (position s + frameSize header)); [done|].
  apply orb_false_iff in Hsize as [Hsmall _]. lia.
Qed.

Lemma scan_ext (fuel : nat) (s : ScanState) :
  (∀ p, position s <= p < buffer_length buffer - 4 → parse1 buffer p = parse2 buffer p) →
  scan parse1 fuel buffer s = scan parse2 fuel buffer s.
Proof.
  revert s. induction fuel as [|fuel IH]; intros s Hagree; [done|].
  destruct (Z_lt_le_dec (position s) (buffer_length buffer - 4)) as [Hguard|Hend].
  - rewrite !scan_step, loopBody_ext by done.
    destruct (loopBody parse2 buffer s) as [s' []] eqn:Hbody; [|done].
    apply loopBody_progress in Hbody.
    apply IH. intros p Hp. apply Hagree. lia.
  - by rewrite !scan_done by lia.
Qed.

Lemma countFrames_ext (start : Z) :
  initialPosition buffer = Ret start →
  (∀ p, start <= p < buffer_length buffer - 4 → parse1 buffer p = parse2 buffer p) →
  countFrames parse1 (length buffer) buffer = countFrames parse2 (length buffer) buffer.
Proof.
  intros Hstart Hagree. unfold countFrames. rewrite Hstart.
  by rewrite scan_ext.
Qed.

End TwoParsers.

(** ** Buffers without a header *)

Lemma headerChecks_true (b1 b2 b3 : Z) :
  headerChecks b1 b2 b3 = true ↔
  b1 = 255 ∧ Z.land b2 224 = 224 ∧ field b2 3 3 = 3 ∧ field b2 1 3 = 1
  ∧ field b3 4 15 ≠ 0 ∧ field b3 4 15 ≠ 15 ∧ field b3 2 3 ≠ 3.
Proof.
  unfold headerChecks.
  rewrite !andb_true_iff, !negb_true_iff, orb_false_iff, !Z.eqb_eq, !Z.eqb_neq.
  tauto.
Qed.

(** Where a header is found, the bytes pass the tests. *)
Lemma parseFrameHeader_valid (buffer : list byte) (p : Z) (h : FrameHeader) :
  parseFrameHeader buffer p = Ret (Some h) →
  validHeaderAt buffer (Z.to_nat p) = true.
Proof.
  intros Hparse.
  apply parseFrameHeader_Some in Hparse as (Hp & _ & b1 & b2 & b3 & Hl1 & Hl2 & Hl3 & Hd).
  unfold validHeaderAt.
  replace (Z.to_nat p + 1)%nat with (Z.to_nat (p + 1)) by lia.
  replace (Z.to_nat p + 2)%nat with (Z.to_nat (p + 2)) by lia.
  rewrite Hl1, Hl2, Hl3.
  apply decodeHeader_Some in Hd as [Hchecks _]; [|apply byte_val_range..].
  by apply headerChecks_true.
Qed.

Lemma parseFrameHeader_invalid (buffer : list byte) (p : Z) :
  validHeaderAt buffer (Z.to_nat p) = false → parseFrameHeader buffer p = Ret None.
Proof.
  intros Hinvalid.
  destruct (parseFrameHeader buffer p) as [[h|]|] eqn:Hparse; [|done|].
  - apply parseFrameHeader_valid in Hparse. congruence.
  - by apply parseFrameHeader_no_throw in Hparse.
Qed.

Section NoHeader.

Variable parseHeader : list byte → Z → outcome (option FrameHeader).
Variable buffer : list byte.
Hypothesis no_header : ∀ p, parseHeader buffer p = Ret None.

Lemma loopBody_no_header (s : ScanState) :
  loopBody parseHeader buffer s = (advance s, Continue).
Proof. unfold loopBody. by rewrite no_header. Qed.

Lemma scan_no_header (fuel : nat) (s r : ScanState) :
  scan parseHeader fuel buffer s = Some r → frameCount r = frameCount s.
Proof.
  revert s. induction fuel as [|fuel IH]; intros s Hscan.
  - destruct (Z_lt_le_dec (position s) (buffer_length buffer - 4)) as [Hguard|Hend].
    + cbn [scan] in Hscan.
      by destruct (Z.ltb_spec (position s) (buffer_length buffer - 4)); [|lia].
    + rewrite scan_done in Hscan by lia. by simplify_eq.
  - destruct (Z_lt_le_dec (position s) (buffer_length buffer - 4)) as [Hguard|Hend].
    + rewrite scan_step, loopBody_no_header in Hscan by done.
      by apply IH in Hscan.
    + rewrite scan_done in Hscan by lia. by simplify_eq.
Qed.

Lemma countFrames_no_header :
  countFrames parseHeader (length buffer) buffer = Some (Ret 0).
Proof.
  destruct (countFrames_returns parseHeader buffer) as (n & Hn & _).
  rewrite Hn. unfold countFrames in Hn.
  destruct (initialPosition buffer) as [start|]; [|done].
  destruct (scan parseHeader (length buffer) buffer _) as [r|] eqn:Hr; [|done].
  apply scan_no_header in Hr. cbn in Hn, Hr.
  injection Hn as <-. by rewrite Hr.
Qed.

End NoHeader.

(** In a buffer of at most four bytes the loop is not entered. *)
Lemma countFrames_short (parseHeader : list byte → Z → outcome (option FrameHeader))
    (buffer : list byte) :
  (length buffer <= 4)%nat →
  countFrames parseHeader (length buffer) buffer = Some (Ret 0).
Proof.
  intros Hlen. unfold countFrames.
  destruct (initialPosition_returns buffer) as (start & -> & Hstart).
  rewrite scan_done; [done|]. unfold buffer_length. cbn. lia.
Qed.

(** C3: a buffer in which no position with four bytes left passes the header
    tests (sync word, version, layer, bitrate index, sample rate index) makes
    countMp3Frames return 0; so does every buffer on which parseFrameHeader
    returns null at each position the loop can visit, and every buffer of
    fewer than 4 bytes, the empty one included. *)
Theorem countMp3Frames_no_valid_header :
  (∀ buffer : list byte,
      (∀ p : nat, Z.of_nat p + 4 <= buffer_length buffer →
                  validHeaderAt buffer p = false) →
      countMp3Frames buffer = Some (Ret 0))
  ∧ (∀ buffer : list byte,
      (∀ p : Z, 0 <= p < buffer_length buffer - 4 →
                parseFrameHeader buffer p = Ret None) →
      countMp3Frames buffer = Some (Ret 0))
  ∧ (∀ buffer : list byte,
      (length buffer < 4)%nat → countMp3Frames buffer = Some (Ret 0))
  ∧ countMp3Frames [] = Some (Ret 0).
Proof.
  split; [|split; [|split]].
  - intros buffer Hinvalid. apply countFrames_no_header. intros p.
    destruct (parseFrameHeader buffer p) as [[h|]|] eqn:Hparse; [|done|].
    + pose proof (parseFrameHeader_valid _ _ _ Hparse) as Hvalid.
      apply parseFrameHeader_Some in Hparse as (Hpos & Hfit & _).
      rewrite Hinvalid in Hvalid by lia. done.
    + by apply parseFrameHeader_no_throw in Hparse.
  - intros buffer Hnull. unfold countMp3Frames.
    destruct (initialPosition_returns buffer) as (start & Hstart & Hpos).
    rewrite (countFrames_ext parseFrameHeader (λ _ _, Ret None) buffer start Hstart).
    + by apply countFrames_no_header.
    + intros p Hp. apply Hnull. lia.
  - intros buffer Hlen. apply countFrames_short. lia.
  - reflexivity.
Qed.

Lemma countMp3Frames_no_valid_header_witness :
  let cut := rejectedHeaders ++ [xff; xfb; x90]%byte in
  let unscanned := [x00; xff; xfb; x90; x00]%byte in
  (∀ p : nat, Z.of_nat p + 4 <= buffer_length cut → validHeaderAt cut p = false)
  ∧ validHeaderAt cut 16 = true
  ∧ countMp3Frames cut = Some (Ret 0)
  ∧ (∀ p : Z, 0 <= p < buffer_length unscanned - 4 →
              parseFrameHeader unscanned p = Ret None)
  ∧ countMp3Frames unscanned = Some (Ret 0)
  ∧ (length [xff; xfb]%byte < 4)%nat
  ∧ countMp3Frames [xff; xfb]%byte = Some (Ret 0).
Proof.
  intros cut unscanned.
  assert (∀ p : nat, Z.of_nat p + 4 <= buffer_length cut →
                     validHeaderAt cut p = false) as Hinvalid.
  { intros p Hp. change (buffer_length cut) with 19 in Hp.
    do 16 (destruct p as [|p]; [reflexivity|]). lia. }
  assert (∀ p : Z, 0 <= p < buffer_length unscanned - 4 →
                   parseFrameHeader unscanned p = Ret None) as Hnull.
  { intros p Hp. change (buffer_length unscanned) with 5 in Hp.
    assert (p = 0) as -> by lia. reflexivity. }
  assert (length [xff; xfb]%byte < 4)%nat as Hlen by (cbn; lia).
  split; [exact Hinvalid|]. split; [reflexivity|]. split.
  - exact (proj1 countMp3Frames_no_valid_header cut Hinvalid).
  - split; [exact Hnull|]. split.
    + exact (proj1 (proj2 countMp3Frames_no_valid_header) unscanned Hnull).
    + split; [exact Hlen|].
      exact (proj1 (proj2 (proj2 countMp3Frames_no_valid_header)) [xff; xfb]%byte Hlen).
Defined.

(** ** Rejected headers *)

Lemma buffer_at_byte (buffer : list byte) (p : Z) (b : byte) :
  0 <= p → buffer !! Z.to_nat p = Some b → buffer_at buffer p = Some (byte_val b).
Proof.
  intros Hp Hb. rewrite <- (Z2Nat.id p) by done.
  by rewrite buffer_at_lookup, Hb.
Qed.

(** C4: parseFrameHeader returns null, and the scanner moves one byte on
    without counting, whenever byte 0 is not 0xFF, or the top three bits of
    byte 1 are not all 1, or the version code is not 3 (MPEG Version 1), or
    the layer code is not 1 (Layer III), or the bitrate index is 0 or 15, or
    the sample rate index is 3; and it returns null at every position that
    has no four bytes left, so this covers every buffer and position. *)
Theorem parseFrameHeader_rejects :
  (∀ (buffer : list byte) (position : Z) (b1 b2 b3 : byte),
      0 <= position →
      buffer !! Z.to_nat position = Some b1 →
      buffer !! Z.to_nat (position + 1) = Some b2 →
      buffer !! Z.to_nat (position + 2) = Some b3 →
      byte_val b1 ≠ 255
      ∨ Z.land (byte_val b2) 224 ≠ 224
      ∨ field (byte_val b2) 3 3 ≠ 3
      ∨ field (byte_val b2) 1 3 ≠ 1
      ∨ field (byte_val b3) 4 15 = 0
      ∨ field (byte_val b3) 4 15 = 15
      ∨ field (byte_val b3) 2 3 = 3 →
      parseFrameHeader buffer position = Ret None
      ∧ ∀ count : Z,
          loopBody parseFrameHeader buffer
            {| position := position; frameCount := count |}
          = ({| position := position + 1; frameCount := count |}, Continue))
  ∧ (∀ (buffer : list byte) (position : Z),
      position < 0 ∨ buffer_length buffer < position + 4 →
      parseFrameHeader buffer position = Ret None).
Proof.
  split.
  - intros buffer p b1 b2 b3 Hp Hl1 Hl2 Hl3 Hrej.
    assert (parseFrameHeader buffer p = Ret None) as Hnull.
    { destruct (Z_lt_le_dec (buffer_length buffer) (p + 4)) as [Hshort|Hfit].
      - by apply parseFrameHeader_short.
      - rewrite parseFrameHeader_decode by done.
        rewrite (buffer_at_byte _ _ b1), (buffer_at_byte _ _ b2),
          (buffer_at_byte _ _ b3) by (done || lia).
        f_equal. apply decodeHeader_None; [apply byte_val_range..|done]. }
    split; [done|].
    intros count. unfold loopBody. cbn [position]. by rewrite Hnull.
  - intros buffer p [Hneg|Hshort].
    + destruct (Z_lt_le_dec (buffer_length buffer) (p + 4)) as [Hshort|Hfit].
      * by apply parseFrameHeader_short.
      * rewrite parseFrameHeader_decode by done.
        by rewrite (buffer_at_outside buffer p) by lia.
    + by apply parseFrameHeader_short.
Qed.

Lemma parseFrameHeader_rejects_witness :
  parseFrameHeader rejectedHeaders 4 = Ret None
  ∧ loopBody parseFrameHeader rejectedHeaders {| position := 4; frameCount := 7 |}
    = ({| position := 4 + 1; frameCount := 7 |}, Continue)
  ∧ parseFrameHeader rejectedHeaders 13 = Ret None.
Proof.
  destruct (proj1 parseFrameHeader_rejects rejectedHeaders 4 xff xfb x00) as [Hnull Hbody].
  - lia.
  - reflexivity.
  - reflexivity.
  - reflexivity.
  - right. right. right. right. left. reflexivity.
  - split; [exact Hnull|]. split; [exact (Hbody 7)|].
    apply (proj2 parseFrameHeader_rejects rejectedHeaders 13).
    right. vm_compute. reflexivity.
Defined.

(** ** The ID3v2 tag skip and the scan *)

Lemma initialPosition_id3 (buffer : list byte) (b6 b7 b8 b9 : byte) :
  (10 <= length buffer)%nat →
  take 3 buffer = [x49; x44; x33]%byte →
  buffer !! 6%nat = Some b6 → buffer !! 7%nat = Some b7 →
  buffer !! 8%nat = Some b8 → buffer !! 9%nat = Some b9 →
  initialPosition buffer =
    Ret (10 + Z.lor (Z.lor (Z.lor (Z.shiftl (byte_val b6) 21)
                                  (Z.shiftl (byte_val b7) 14))
                           (Z.shiftl (byte_val b8) 7))
                    (byte_val b9)).
Proof.
  intros Hlen Hid3 H6 H7 H8 H9. unfold initialPosition.
  destruct (Z.geb_spec (buffer_length buffer) 10) as [_|Hlt];
    [|unfold buffer_length in Hlt; lia].
  unfold toStringAscii. rewrite drop_0. change (3 - 0)%nat with 3%nat. rewrite Hid3.
  change (asciiSlice [x49; x44; x33]%byte =? "ID3")%string with true. cbn match.
  rewrite !readByte_inside by (unfold buffer_length; lia). cbn [mbind outcome_bind].
  rewrite (buffer_at_byte buffer 6 b6), (buffer_at_byte buffer 7 b7),
    (buffer_at_byte buffer 8 b8), (buffer_at_byte buffer 9 b9) by (lia || assumption).
  cbn [ToInt32].
  destruct (id3Size_no_wrap (byte_val b6) (byte_val b7) (byte_val b8) (byte_val b9))
    as [-> _]; [apply byte_val_range..|].
  reflexivity.
Qed.

(** C5: when the buffer has at least 10 bytes and starts with 'I','D','3',
    the scan starts at 10 + ((b6<<21) | (b7<<14) | (b8<<7) | b9): that is the
    cursor the loop is entered with, and what the parser would answer before
    that offset has no effect on the count.  A 10-byte tag header of size 0
    followed by one 417-byte frame gives the count 1. *)
Theorem id3_tag_skip :
  (∀ (buffer : list byte) (b6 b7 b8 b9 : byte),
      (10 <= length buffer)%nat →
      take 3 buffer = [x49; x44; x33]%byte →
      buffer !! 6%nat = Some b6 → buffer !! 7%nat = Some b7 →
      buffer !! 8%nat = Some b8 → buffer !! 9%nat = Some b9 →
      let start :=
        10 + Z.lor (Z.lor (Z.lor (Z.shiftl (byte_val b6) 21)
                                 (Z.shiftl (byte_val b7) 14))
                          (Z.shiftl (byte_val b8) 7))
                   (byte_val b9) in
      initialPosition buffer = Ret start
      ∧ countMp3Frames buffer =
          (s ← scan parseFrameHeader (length buffer) buffer
                 {| position := start; frameCount := 0 |};
           Some (Ret (frameCount s)))
      ∧ ∀ parseHeader : list byte → Z → outcome (option FrameHeader),
          (∀ p, start <= p → parseHeader buffer p = parseFrameHeader buffer p) →
          countFrames parseHeader (length buffer) buffer = countMp3Frames buffer)
  ∧ (∀ v1 v2 flags : byte,
      countMp3Frames (id3Tag v1 v2 flags x00 ++ frame417) = Some (Ret 1)).
Proof.
  split.
  - intros buffer b6 b7 b8 b9 Hlen Hid3 H6 H7 H8 H9 start.
    pose proof (initialPosition_id3 buffer b6 b7 b8 b9 Hlen Hid3 H6 H7 H8 H9) as Hstart.
    fold start in Hstart. split; [done|]. split.
    + unfold countMp3Frames, countFrames. by rewrite Hstart.
    + intros parseHeader Hagree. unfold countMp3Frames.
      apply (countFrames_ext _ _ _ start Hstart).
      intros p Hp. apply Hagree. lia.
  - intros v1 v2 flags. vm_compute. reflexivity.
Qed.

Lemma id3_tag_skip_witness :
  let buffer := id3Tag x03 x00 x00 x02 ++ [xff; xfb]%byte ++ frame417 in
  (10 <= length buffer)%nat
  ∧ take 3 buffer = [x49; x44; x33]%byte
  ∧ buffer !! 6%nat = Some x00%byte ∧ buffer !! 7%nat = Some x00%byte
  ∧ buffer !! 8%nat = Some x00%byte ∧ buffer !! 9%nat = Some x02%byte
  ∧ initialPosition buffer = Ret 12
  ∧ countMp3Frames buffer = Some (Ret 1).
Proof.
  intros buffer.
  assert (10 <= length buffer)%nat as Hlen by (cbn; lia).
  destruct (proj1 id3_tag_skip buffer x00 x00 x00 x02 Hlen
              eq_refl eq_refl eq_refl eq_refl eq_refl) as (Hstart & Hcount & _).
  repeat (split; [first [exact Hlen | reflexivity | exact Hstart]|]).
  rewrite Hcount. vm_compute. reflexivity.
Defined.

(** ** The frame size *)

(** C6: wherever parseFrameHeader finds a header, its frameSize is
    floor(144 * bitrate * 1000 / sampleRate) plus 1 when the padding bit is
    set, as an exact integer quotient, with the bitrate and the sample rate
    the table entries of the header's indices; the tables hold 32 .. 320 kbps
    at indices 1 .. 14 and 44100, 48000, 32000 Hz at indices 0 .. 2; bitrate
    index 9 at 44100 Hz without padding gives 417. *)
Theorem frameSize_formula :
  (∀ (buffer : list byte) (position : Z) (header : FrameHeader),
      parseFrameHeader buffer position = Ret (Some header) →
      ∃ bitrate sampleRate : Z,
        BITRATE_TABLE !! bitrateIndex header = Some bitrate
        ∧ SAMPLE_RATE_TABLE !! sampleRateIndex header = Some sampleRate
        ∧ frameSize header
          = (144 * bitrate * 1000) `div` sampleRate
            + (if padding header then 1 else 0))
  ∧ (∀ i v : Z,
      BITRATE_TABLE !! i = Some v ↔
      (i, v) ∈ [ (1, 32); (2, 40); (3, 48); (4, 56); (5, 64); (6, 80); (7, 96);
                 (8, 112); (9, 128); (10, 160); (11, 192); (12, 224);
                 (13, 256); (14, 320) ])
  ∧ (∀ i v : Z,
      SAMPLE_RATE_TABLE !! i = Some v ↔
      (i, v) ∈ [ (0, 44100); (1, 48000); (2, 32000) ])
  ∧ parseFrameHeader frame417 0
    = Ret (Some {| version := 3; layer := 1; bitrateIndex := 9;
                   sampleRateIndex := 0; padding := false; frameSize := 417 |}).
Proof.
  split; [|split; [|split]].
  - intros buffer p header Hparse.
    apply parseFrameHeader_Some in Hparse as (_ & _ & b1 & b2 & b3 & _ & _ & _ & Hd).
    apply decodeHeader_Some in Hd; [|apply byte_val_range..].
    destruct Hd as (_ & _ & _ & _ & _ & _ & Hsize). exact Hsize.
  - intros i v. symmetry. apply (elem_of_list_to_map (M := gmap Z)).
    apply (bool_decide_unpack _). vm_compute. exact I.
  - intros i v. symmetry. apply (elem_of_list_to_map (M := gmap Z)).
    apply (bool_decide_unpack _). vm_compute. exact I.
  - vm_compute. reflexivity.
Qed.

Lemma frameSize_formula_witness :
  let header := {| version := 3; layer := 1; bitrateIndex := 14;
                   sampleRateIndex := 0; padding := true; frameSize := 1045 |} in
  parseFrameHeader [xff; xfb; xe2; x00]%byte 0 = Ret (Some header)
  ∧ ∃ bitrate sampleRate : Z,
      BITRATE_TABLE !! 14 = Some bitrate
      ∧ SAMPLE_RATE_TABLE !! 0 = Some sampleRate
      ∧ 1045 = (144 * bitrate * 1000) `div` sampleRate + 1.
Proof.
  intros header.
  assert (parseFrameHeader [xff; xfb; xe2; x00]%byte 0 = Ret (Some header)) as Hparse
    by (vm_compute; reflexivity).
  split; [exact Hparse|].
  exact (proj1 frameSize_formula [xff; xfb; xe2; x00]%byte 0 header Hparse).
Defined.

(** ** No error leaves the scan *)

(** C7: for every buffer countMp3Frames returns a count that is not
    negative and throws nothing; so does the scan over any parser, whatever
    it returns or throws.  readByte throws at every position from the buffer
    length on; wherever one of the four reads of a header would be such a
    read, parseFrameHeader returns null and throws nothing.  A null or an
    exception from the parser at the cursor is recovered by the loop: the
    iteration moves the cursor one byte on with the count unchanged, and the
    scan goes on from there. *)
Theorem countMp3Frames_never_throws :
  (∀ buffer : list byte,
      ∃ n : Z, countMp3Frames buffer = Some (Ret n) ∧ 0 <= n)
  ∧ (∀ (parseHeader : list byte → Z → outcome (option FrameHeader))
       (buffer : list byte),
      ∃ n : Z, countFrames parseHeader (length buffer) buffer = Some (Ret n) ∧ 0 <= n)
  ∧ (∀ (buffer : list byte) (k : nat),
      readByte buffer (buffer_length buffer + Z.of_nat k) = Throw)
  ∧ (∀ (buffer : list byte) (position : Z),
      ∃ result, parseFrameHeader buffer position = Ret result)
  ∧ (∀ (buffer : list byte) (s : ScanState),
      loopBody (λ _ _, Throw) buffer s = (advance s, Continue)
      ∧ loopBody (λ _ _, Ret None) buffer s = (advance s, Continue))
  ∧ (∀ (buffer : list byte) (position k : Z),
      0 <= k < 4 →
      readByte buffer (position + k) = Throw →
      parseFrameHeader buffer position = Ret None)
  ∧ (∀ (parseHeader : list byte → Z → outcome (option FrameHeader))
       (buffer : list byte) (s : ScanState),
      parseHeader buffer (position s) = Throw
      ∨ parseHeader buffer (position s) = Ret None →
      loopBody parseHeader buffer s = (advance s, Continue)
      ∧ (position s < buffer_length buffer - 4 →
         ∀ fuel : nat,
           scan parseHeader (S fuel) buffer s
           = scan parseHeader fuel buffer (advance s)))
  ∧ (∀ (buffer : list byte) (s : ScanState),
      parseFrameHeader buffer (position s) = Ret None →
      loopBody parseFrameHeader buffer s = (advance s, Continue)
      ∧ (position s < buffer_length buffer - 4 →
         ∀ fuel : nat,
           scan parseFrameHeader (S fuel) buffer s
           = scan parseFrameHeader fuel buffer (advance s))).
Proof.
  assert (∀ (parseHeader : list byte → Z → outcome (option FrameHeader))
            (buffer : list byte) (s : ScanState),
      parseHeader buffer (position s) = Throw
      ∨ parseHeader buffer (position s) = Ret None →
      loopBody parseHeader buffer s = (advance s, Continue)
      ∧ (position s < buffer_length buffer - 4 →
         ∀ fuel : nat,
           scan parseHeader (S fuel) buffer s
           = scan parseHeader fuel buffer (advance s))) as Hrecover.
  { intros parseHeader buffer s Hfail.
    assert (loopBody parseHeader buffer s = (advance s, Continue)) as Hbody.
    { unfold loopBody. by destruct Hfail as [-> | ->]. }
    split; [exact Hbody|].
    intros Hguard fuel. by rewrite scan_step, Hbody. }
  split; [|split; [|split; [|split; [|split; [|split; [|split]]]]]].
  - intros buffer. apply countFrames_returns.
  - intros parseHeader buffer. apply countFrames_returns.
  - intros buffer k. apply readByte_outside. lia.
  - intros buffer p. pose proof (parseFrameHeader_no_throw buffer p).
    destruct (parseFrameHeader buffer p) as [result|]; [eauto|done].
  - intros buffer s. split; reflexivity.
  - intros buffer p k Hk Hthrow. apply parseFrameHeader_short.
    destruct (Z_lt_le_dec (p + k) (buffer_length buffer)) as [Hin|Hout]; [|lia].
    by rewrite readByte_inside in Hthrow.
  - exact Hrecover.
  - intros buffer s Hnull. apply Hrecover. by right.
Qed.

Lemma countMp3Frames_never_throws_witness :
  let short := (header128 ++ [x00])%byte in
  let s := {| position := 4; frameCount := 0 |} in
  (0 <= 3 < 4
   ∧ readByte short (2 + 3) = Throw
   ∧ parseFrameHeader short 2 = Ret None)
  ∧ (position s < buffer_length rejectedHeaders - 4
     ∧ loopBody (λ _ _, Throw) rejectedHeaders s = (advance s, Continue)
     ∧ scan (λ _ _, Throw) 3 rejectedHeaders s
       = scan (λ _ _, Throw) 2 rejectedHeaders (advance s))
  ∧ (parseFrameHeader rejectedHeaders (position s) = Ret None
     ∧ loopBody parseFrameHeader rejectedHeaders s = (advance s, Continue)
     ∧ scan parseFrameHeader 3 rejectedHeaders s
       = scan parseFrameHeader 2 rejectedHeaders (advance s)).
Proof.
  intros short s.
  assert (0 <= 3 < 4) as Hk by lia.
  assert (readByte short (2 + 3) = Throw) as Hthrow by reflexivity.
  assert (position s < buffer_length rejectedHeaders - 4) as Hguard
    by (vm_compute; reflexivity).
  assert (parseFrameHeader rejectedHeaders (position s) = Ret None) as Hnull
    by (vm_compute; reflexivity).
  destruct countMp3Frames_never_throws
    as (_ & _ & _ & _ & _ & Hread & Hrecover & Hparser).
  split; [|split].
  - split; [exact Hk|]. split; [exact Hthrow|].
    exact (Hread short 2 3 Hk Hthrow).
  - destruct (Hrecover (λ _ _, Throw) rejectedHeaders s (or_introl eq_refl))
      as [Hbody Hscan].
    split; [exact Hguard|]. split; [exact Hbody|]. exact (Hscan Hguard 2%nat).
  - destruct (Hparser rejectedHeaders s Hnull) as [Hbody Hscan].
    split; [exact Hnull|]. split; [exact Hbody|]. exact (Hscan Hguard 2%nat).
Defined.

(** ** The trailing partial frame *)

(** C8: when the parser finds at the cursor a header with a frameSize in
    [4, 1440] and the frame would end beyond the buffer, the iteration counts
    the frame exactly when four bytes are left from the cursor, and it leaves
    the loop: the scan stops there with that count.  This holds for the scan
    over any parser, over parseFrameHeader in particular. *)
Theorem trailing_partial_frame
    (parseHeader : list byte → Z → outcome (option FrameHeader))
    (buffer : list byte) (s : ScanState) (header : FrameHeader) :
  parseHeader buffer (position s) = Ret (Some header) →
  4 <= frameSize header <= 1440 →
  position s + frameSize header > buffer_length buffer →
  let final :=
    {| position := position s;
       frameCount := if position s + 4 <=? buffer_length buffer
                     then frameCount s + 1 else frameCount s |} in
  loopBody parseHeader buffer s = (final, Break)
  ∧ (position s < buffer_length buffer - 4 →
     ∀ fuel : nat, scan parseHeader (S fuel) buffer s = Some final).
Proof.
  intros Hparse Hsize Hover final.
  assert (loopBody parseHeader buffer s = (final, Break)) as Hbody.
  { unfold loopBody. rewrite Hparse.
    destruct (Z.ltb_spec (frameSize header) 4); [lia|].
    destruct (Z.gtb_spec (frameSize header) 1440); [lia|]. cbn [orb].
    by destruct (Z.gtb_spec (position s + frameSize header) (buffer_length buffer)); [|lia]. }
  split; [done|].
  intros Hguard fuel. by rewrite scan_step, Hbody.
Qed.

Lemma trailing_partial_frame_witness :
  let buffer := (header128 ++ replicate 6 x00)%byte in
  let s := {| position := 0; frameCount := 0 |} in
  parseFrameHeader buffer (position s) = Ret (Some header417)
  ∧ 4 <= frameSize header417 <= 1440
  ∧ position s + frameSize header417 > buffer_length buffer
  ∧ loopBody parseFrameHeader buffer s = ({| position := 0; frameCount := 1 |}, Break)
  ∧ scan parseFrameHeader 1 buffer s = Some {| position := 0; frameCount := 1 |}.
Proof.
  intros buffer s.
  assert (parseFrameHeader buffer (position s) = Ret (Some header417)) as Hparse
    by (vm_compute; reflexivity).
  assert (4 <= frameSize header417 <= 1440) as Hsize by (cbn; lia).
  assert (position s + frameSize header417 > buffer_length buffer) as Hover
    by (vm_compute; reflexivity).
  destruct (trailing_partial_frame parseFrameHeader buffer s header417 Hparse Hsize Hover)
    as [Hbody Hscan].
  repeat (split; [assumption|]).
  apply (Hscan ltac:(vm_compute; reflexivity) 0%nat).
Defined.

(** With [parseFrameHeader] the four bytes are always there: it finds a
    header only where four bytes are left. *)
Lemma partial_frame_always_counted (buffer : list byte) (s : ScanState)
    (header : FrameHeader) :
  parseFrameHeader buffer (position s) = Ret (Some header) →
  (position s + 4 <=? buffer_length buffer) = true.
Proof.
  intros Hparse. apply parseFrameHeader_Some in Hparse as (_ & Hfit & _).
  by destruct (Z.leb_spec (position s + 4) (buffer_length buffer)); [|lia].
Qed.

(** ** The lookahead *)

Lemma loopBody_lookahead (buffer : list byte) (s : ScanState) :
  loopBody parseFrameHeader buffer s = loopBodyNoLookahead buffer s.
Proof.
  unfold loopBody, loopBodyNoLookahead.
  destruct (parseFrameHeader buffer (position s)) as [[header|]|]; [|done..].
  destruct ((frameSize header <? 4) || (frameSize header >? 1440)); [done|].
  destruct (position s + frameSize header >? buffer_length buffer); [done|].
  destruct (position s + frameSize header >=? buffer_length buffer - 4); [done|].
  destruct (parseFrameHeader buffer (position s + frameSize header))
    as [next|] eqn:Hnext.
  - by destruct (match next with Some _ => _ | None => _ end).
  - by apply parseFrameHeader_no_throw in Hnext.
Qed.

Lemma scan_lookahead (fuel : nat) (buffer : list byte) (s : ScanState) :
  scan parseFrameHeader fuel buffer s = scanNoLookahead fuel buffer s.
Proof.
  revert s. induction fuel as [|fuel IH]; intros s; [done|].
  cbn [scan scanNoLookahead]. rewrite loopBody_lookahead.
  destruct (position s <? buffer_length buffer - 4); [|done].
  by destruct (loopBodyNoLookahead buffer s) as [s' []].
Qed.

(** C9: countMp3Frames returns, on every buffer, what the scan without the
    lookahead returns: both branches after the lookahead set the cursor to
    the expected next position, and the lookahead call cannot throw. *)
Theorem countMp3Frames_lookahead_irrelevant (buffer : list byte) :
  countMp3Frames buffer = countMp3FramesNoLookahead buffer.
Proof.
  unfold countMp3Frames, countFrames, countMp3FramesNoLookahead.
  destruct (initialPosition buffer) as [start|]; [|done].
  by rewrite scan_lookahead.
Qed.

(** ** The last four positions *)

(** C10: the count does not depend on what the parser would answer at a
    position from [length - 4] on, since the loop runs, and looks ahead, only
    below it: a header there is neither examined nor counted.  The buffer
    that is just the header 0xFF 0xFB 0x90 0x00 gives 0, although
    parseFrameHeader finds the header at its position 0. *)
Theorem countMp3Frames_ignores_tail :
  (∀ (parseHeader : list byte → Z → outcome (option FrameHeader))
     (buffer : list byte),
      (∀ p, p < buffer_length buffer - 4 →
            parseHeader buffer p = parseFrameHeader buffer p) →
      countFrames parseHeader (length buffer) buffer = countMp3Frames buffer)
  ∧ parseFrameHeader header128 0 = Ret (Some header417)
  ∧ countMp3Frames header128 = Some (Ret 0).
Proof.
  split; [|split].
  - intros parseHeader buffer Hagree. unfold countMp3Frames.
    destruct (initialPosition_returns buffer) as (start & Hstart & _).
    apply (countFrames_ext _ _ _ start Hstart).
    intros p Hp. apply Hagree. lia.
  - vm_compute. reflexivity.
  - vm_compute. reflexivity.
Qed.

Lemma countMp3Frames_ignores_tail_witness :
  let buffer := frame417 ++ header128 in
  let parseHeader := λ (buffer : list byte) (p : Z),
    if p <? buffer_length buffer - 4 then parseFrameHeader buffer p else Ret None in
  (∀ p, p < buffer_length buffer - 4 →
        parseHeader buffer p = parseFrameHeader buffer p)
  ∧ parseFrameHeader buffer 417 = Ret (Some header417)
  ∧ parseHeader buffer 417 = Ret None
  ∧ countFrames parseHeader (length buffer) buffer = countMp3Frames buffer
  ∧ countMp3Frames buffer = Some (Ret 1).
Proof.
  intros buffer parseHeader.
  assert (∀ p, p < buffer_length buffer - 4 →
               parseHeader buffer p = parseFrameHeader buffer p) as Hagree.
  { intros p Hp. unfold parseHeader.
    by destruct (Z.ltb_spec p (buffer_length buffer - 4)); [|lia]. }
  split; [exact Hagree|].
  split; [vm_compute; reflexivity|].
  split; [vm_compute; reflexivity|].
  split; [exact (proj1 countMp3Frames_ignores_tail parseHeader buffer Hagree)|].
  vm_compute. reflexivity.
Defined.

(** * Further properties of the code *)

(** ** readByte *)

(** X1: readByte throws exactly from the buffer length on; below it, it
    returns the byte, a value in 0 .. 255, at a non-negative position and
    [undefined] at a negative one. *)
Theorem readByte_cases (buffer : list byte) (position : Z) :
  (readByte buffer position = Throw ↔ buffer_length buffer <= position)
  ∧ (readByte buffer position = Ret None ↔ position < 0)
  ∧ (∀ v, readByte buffer position = Ret (Some v) →
          0 <= position < buffer_length buffer ∧ 0 <= v <= 255
          ∧ ∃ b, buffer !! Z.to_nat position = Some b ∧ v = byte_val b)
  ∧ (0 <= position < buffer_length buffer →
     ∃ b, buffer !! Z.to_nat position = Some b
          ∧ readByte buffer position = Ret (Some (byte_val b))).
Proof.
  assert (0 <= buffer_length buffer) as Hlen by (unfold buffer_length; lia).
  destruct (Z_lt_le_dec position (buffer_length buffer)) as [Hin|Hout].
  - rewrite readByte_inside by done.
    destruct (Z_lt_le_dec position 0) as [Hneg|Hpos].
    + rewrite buffer_at_outside by lia.
      repeat split; intros; try done; lia.
    + destruct (buffer_at_inside buffer position) as (b & Hb & ->); [lia|].
      pose proof (byte_val_range b).
      repeat split; intros; simplify_eq; try done; try lia; eauto.
  - rewrite readByte_outside by done.
    repeat split; intros; try done; lia.
Qed.

Lemma readByte_cases_witness :
  readByte header128 1 = Ret (Some 251)
  ∧ (0 <= 1 < buffer_length header128 ∧ 0 <= 251 <= 255
     ∧ ∃ b, header128 !! Z.to_nat 1 = Some b ∧ 251 = byte_val b).
Proof.
  assert (readByte header128 1 = Ret (Some 251)) as Hread by reflexivity.
  split; [exact Hread|].
  exact (proj1 (proj2 (proj2 (readByte_cases header128 1))) 251 Hread).
Defined.

(** ** What parseFrameHeader accepts, completely *)

Lemma field_bounds (b shift : Z) (n : Z) :
  0 <= n → 0 <= field b shift (Z.ones n) < 2 ^ n.
Proof.
  intros Hn. unfold field. rewrite Z.land_ones by lia.
  apply Z.mod_pos_bound. apply Z.pow_pos_nonneg; lia.
Qed.

(** Every bitrate index from 1 to 14 and every sample rate index from 0 to 2
    has its table entry. *)
Lemma tables_defined (i j : Z) :
  1 <= i <= 14 → 0 <= j <= 2 →
  ∃ bitrate sampleRate,
    BITRATE_TABLE !! i = Some bitrate ∧ SAMPLE_RATE_TABLE !! j = Some sampleRate.
Proof.
  intros Hi Hj.
  assert (i = 1 ∨ i = 2 ∨ i = 3 ∨ i = 4 ∨ i = 5 ∨ i = 6 ∨ i = 7 ∨ i = 8 ∨ i = 9
          ∨ i = 10 ∨ i = 11 ∨ i = 12 ∨ i = 13 ∨ i = 14) as Hi' by lia.
  assert (j = 0 ∨ j = 1 ∨ j = 2) as Hj' by lia.
  repeat (destruct Hi' as [->|Hi']; [|try subst i]);
    repeat (destruct Hj' as [->|Hj']; [|try subst j]);
    do 2 eexists; split; vm_compute; reflexivity.
Qed.

(** Bytes that pass the tests decode to a header: the test for a missing
    table entry never fires. *)
Lemma decodeHeader_complete (b1 b2 b3 : Z) :
  0 <= b1 < 256 → 0 <= b2 < 256 → 0 <= b3 < 256 →
  headerChecks b1 b2 b3 = true →
  ∃ h, decodeHeader (Some b1) (Some b2) (Some b3) = Some h.
Proof.
  intros H1 H2 H3 Hchecks.
  apply headerChecks_true in Hchecks as (-> & Hsync & Hv & Hl & Hb0 & Hb15 & Hs3).
  pose proof (field_bounds b3 4 4) as Hbr. change (Z.ones 4) with 15 in Hbr.
  pose proof (field_bounds b3 2 2) as Hsr. change (Z.ones 2) with 3 in Hsr.
  change (2 ^ 4) with 16 in Hbr. change (2 ^ 2) with 4 in Hsr.
  destruct (tables_defined (field b3 4 15) (field b3 2 3)) as (bitrate & sampleRate & Hb & Hs);
    [lia..|].
  pose proof (BITRATE_TABLE_entry _ _ Hb) as Hb'.
  pose proof (SAMPLE_RATE_TABLE_entry _ _ Hs) as Hs'.
  destruct (table_entries_positive _ _ _ _ Hb' Hs') as [[_ ?] [_ ?]].
  byte_fields. rewrite Hsync, Hv, Hl, Hb, Hs.
  change (strict_ne (Some 255) 255) with false. cbn [negb orb].
  change (224 =? 224) with true. change (3 =? 3) with true. change (1 =? 1) with true.
  cbn [negb].
  destruct (Z.eqb_spec (field b3 4 15) 0); [lia|].
  destruct (Z.eqb_spec (field b3 4 15) 15); [lia|]. cbn [orb].
  destruct (Z.eqb_spec (field b3 2 3) 3); [lia|].
  destruct (Z.eqb_spec bitrate 0); [lia|].
  destruct (Z.eqb_spec sampleRate 0); [lia|]. cbn [orb].
  eauto.
Qed.

(** X2: parseFrameHeader returns a header exactly at the non-negative
    positions that have four bytes left and whose first three bytes pass the
    tests on the sync word, the version, the layer, the bitrate index and
    the sample rate index; there is no other reason for null. *)
Theorem parseFrameHeader_accepts (buffer : list byte) (position : Z) :
  (∃ header, parseFrameHeader buffer position = Ret (Some header))
  ↔ 0 <= position
    ∧ position + 4 <= buffer_length buffer
    ∧ validHeaderAt buffer (Z.to_nat position) = true.
Proof.
  split.
  - intros [header Hparse]. pose proof (parseFrameHeader_valid _ _ _ Hparse).
    apply parseFrameHeader_Some in Hparse as (? & ? & _). done.
  - intros (Hpos & Hfit & Hvalid).
    rewrite parseFrameHeader_decode by done.
    destruct (buffer_at_inside buffer position) as (b1 & Hl1 & ->); [lia|].
    destruct (buffer_at_inside buffer (position + 1)) as (b2 & Hl2 & ->); [lia|].
    destruct (buffer_at_inside buffer (position + 2)) as (b3 & Hl3 & ->); [lia|].
    unfold validHeaderAt in Hvalid.
    replace (Z.to_nat position + 1)%nat with (Z.to_nat (position + 1)) in Hvalid by lia.
    replace (Z.to_nat position + 2)%nat with (Z.to_nat (position + 2)) in Hvalid by lia.
    rewrite Hl1, Hl2, Hl3 in Hvalid.
    destruct (decodeHeader_complete (byte_val b1) (byte_val b2) (byte_val b3))
      as [h Hh]; [apply byte_val_range..|done|].
    exists h. by rewrite Hh.
Qed.

Lemma parseFrameHeader_accepts_witness :
  (∃ header, parseFrameHeader frame417 0 = Ret (Some header))
  ∧ 0 <= 0 ∧ 0 + 4 <= buffer_length frame417
  ∧ validHeaderAt frame417 (Z.to_nat 0) = true.
Proof.
  assert (0 <= 0 ∧ 0 + 4 <= buffer_length frame417
          ∧ validHeaderAt frame417 (Z.to_nat 0) = true) as Hright.
  { split; [lia|]. split; [vm_compute; discriminate|reflexivity]. }
  split; [|exact Hright].
  exact (proj2 (parseFrameHeader_accepts frame417 0) Hright).
Defined.

(** ** The headers parseFrameHeader returns *)

(** The smallest frame is that of 32 kbps at 48000 Hz, the largest that of
    320 kbps at 32000 Hz with padding. *)
Lemma parsed_frameSize_range (buffer : list byte) (p : Z) (h : FrameHeader) :
  parseFrameHeader buffer p = Ret (Some h) → 96 <= frameSize h <= 1441.
Proof.
  intros Hparse.
  apply parseFrameHeader_Some in Hparse as (_ & _ & b1 & b2 & b3 & _ & _ & _ & Hd).
  apply decodeHeader_Some in Hd; [|apply byte_val_range..].
  destruct Hd as (_ & _ & _ & _ & _ & _ & bitrate & sampleRate & Hb & Hs & Hsize).
  apply BITRATE_TABLE_entry in Hb. apply SAMPLE_RATE_TABLE_entry in Hs.
  destruct h as [ver lay bi si pad size]. cbn in *.
  table_cases Hb Hs; destruct pad; vm_compute in Hsize; subst size; lia.
Qed.

(** X3: every header parseFrameHeader returns has version code 3, layer code
    1, a bitrate index from 1 to 14, a sample rate index from 0 to 2 and a
    frame size from 96 to 1441 bytes; the size exceeds 1440 only for bitrate
    index 14 (320 kbps) at sample rate index 2 (32000 Hz) with padding. *)
Theorem parseFrameHeader_header_range (buffer : list byte) (position : Z)
    (header : FrameHeader) :
  parseFrameHeader buffer position = Ret (Some header) →
  version header = 3 ∧ layer header = 1
  ∧ 1 <= bitrateIndex header <= 14
  ∧ 0 <= sampleRateIndex header <= 2
  ∧ 96 <= frameSize header <= 1441
  ∧ (1440 < frameSize header ↔
     bitrateIndex header = 14 ∧ sampleRateIndex header = 2 ∧ padding header = true).
Proof.
  intros Hparse.
  apply parseFrameHeader_Some in Hparse as (_ & _ & b1 & b2 & b3 & _ & _ & _ & Hd).
  apply decodeHeader_Some in Hd; [|apply byte_val_range..].
  destruct Hd as (_ & Hver & Hlay & _ & _ & _ & bitrate & sampleRate & Hb & Hs & Hsize).
  apply BITRATE_TABLE_entry in Hb. apply SAMPLE_RATE_TABLE_entry in Hs.
  destruct header as [ver lay bi si pad size]. cbn in *.
  split; [done|]. split; [done|].
  table_cases Hb Hs; destruct pad; vm_compute in Hsize; subst size;
    (split; [lia|]); (split; [lia|]); (split; [lia|]);
    (split; [intros ?; first [lia | done] | intros (? & ? & ?); first [lia | done]]).
Qed.

Lemma parseFrameHeader_header_range_witness :
  let header := {| version := 3; layer := 1; bitrateIndex := 14;
                   sampleRateIndex := 2; padding := true; frameSize := 1441 |} in
  parseFrameHeader [xff; xfb; xea; x00]%byte 0 = Ret (Some header)
  ∧ 96 <= 1441 <= 1441
  ∧ (1440 < 1441 ↔ 14 = 14 ∧ 2 = 2 ∧ true = true).
Proof.
  intros header.
  assert (parseFrameHeader [xff; xfb; xea; x00]%byte 0 = Ret (Some header)) as Hparse
    by (vm_compute; reflexivity).
  split; [exact Hparse|].
  exact (proj2 (proj2 (proj2 (proj2
    (parseFrameHeader_header_range [xff; xfb; xea; x00]%byte 0 header Hparse))))).
Defined.

(** X4: a padded 320 kbps frame at 32000 Hz, whose size is 1441 bytes, fails
    the size test of the scan: the iteration moves one byte on and counts
    nothing.  Every other header parseFrameHeader returns passes the size
    test, so it is counted by the iteration that finds it. *)
Theorem loopBody_size_test (buffer : list byte) (s : ScanState) (header : FrameHeader) :
  parseFrameHeader buffer (position s) = Ret (Some header) →
  (bitrateIndex header = 14 ∧ sampleRateIndex header = 2 ∧ padding header = true →
   loopBody parseFrameHeader buffer s = (advance s, Continue))
  ∧ (¬ (bitrateIndex header = 14 ∧ sampleRateIndex header = 2 ∧ padding header = true) →
     ∃ s' c, loopBody parseFrameHeader buffer s = (s', c)
             ∧ frameCount s' = frameCount s + 1).
Proof.
  intros Hparse.
  pose proof (parsed_frameSize_range _ _ _ Hparse) as Hsize.
  assert (1440 < frameSize header ↔
          bitrateIndex header = 14 ∧ sampleRateIndex header = 2
          ∧ padding header = true) as Hbig.
  { apply parseFrameHeader_Some in Hparse as Hbytes.
    destruct Hbytes as (_ & _ & b1 & b2 & b3 & _ & _ & _ & Hd).
    apply decodeHeader_Some in Hd; [|apply byte_val_range..].
    destruct Hd as (_ & _ & _ & _ & _ & _ & bitrate & sampleRate & Hb & Hs & Hfs).
    apply BITRATE_TABLE_entry in Hb. apply SAMPLE_RATE_TABLE_entry in Hs.
    clear Hsize Hparse. destruct header as [ver lay bi si pad size]. cbn in *.
    table_cases Hb Hs; destruct pad; vm_compute in Hfs; subst size;
      (split; [intros ?; first [lia | done] | intros (? & ? & ?); first [lia | done]]). }
  pose proof (partial_frame_always_counted _ _ _ Hparse) as Hfour.
  unfold loopBody. rewrite Hparse. split.
  - intros Hcombo. apply Hbig in Hcombo.
    destruct (Z.ltb_spec (frameSize header) 4); [lia|].
    by destruct (Z.gtb_spec (frameSize header) 1440); [|lia].
  - intros Hcombo.
    destruct (Z.ltb_spec (frameSize header) 4); [lia|].
    destruct (Z.gtb_spec (frameSize header) 1440) as [Hgt|_]; [tauto|]. cbn [orb].
    rewrite Hfour.
    destruct (position s + frameSize header >? buffer_length buffer); [eauto|].
    destruct (position s + frameSize header >=? buffer_length buffer - 4); [eauto|].
    destruct (parseFrameHeader buffer (position s + frameSize header)) as [next|];
      [|eauto].
    destruct (match next with Some _ => _ | None => _ end); eauto.
Qed.

Lemma loopBody_size_test_witness :
  let buffer := ([xff; xfb; xea; x00] ++ replicate 1500 x00)%byte in
  let s := {| position := 0; frameCount := 5 |} in
  let header := {| version := 3; layer := 1; bitrateIndex := 14;
                   sampleRateIndex := 2; padding := true; frameSize := 1441 |} in
  parseFrameHeader buffer (position s) = Ret (Some header)
  ∧ loopBody parseFrameHeader buffer s = (advance s, Continue)
  ∧ ¬ (bitrateIndex header417 = 14 ∧ sampleRateIndex header417 = 2
       ∧ padding header417 = true)
  ∧ ∃ s' c, loopBody parseFrameHeader frame417 s = (s', c)
            ∧ frameCount s' = frameCount s + 1.
Proof.
  intros buffer s header.
  assert (parseFrameHeader buffer (position s) = Ret (Some header)) as Hparse
    by (vm_compute; reflexivity).
  assert (parseFrameHeader frame417 (position s) = Ret (Some header417)) as Hparse'
    by (vm_compute; reflexivity).
  assert (¬ (bitrateIndex header417 = 14 ∧ sampleRateIndex header417 = 2
             ∧ padding header417 = true)) as Hother
    by (intros (Hb & _); cbn in Hb; lia).
  split; [exact Hparse|]. split.
  - apply (proj1 (loopBody_size_test buffer s header Hparse)).
    repeat split.
  - split; [exact Hother|].
    exact (proj2 (loopBody_size_test frame417 s header417 Hparse') Hother).
Defined.

(** ** parseFrameHeader looks at four bytes only *)

Lemma buffer_length_app (front back : list byte) :
  buffer_length (front ++ back) = buffer_length front + buffer_length back.
Proof. unfold buffer_length. rewrite length_app. lia. Qed.

Lemma buffer_at_app_r (front back : list byte) (p : Z) :
  0 <= p → buffer_at (front ++ back) (buffer_length front + p) = buffer_at back p.
Proof.
  intros Hp. unfold buffer_at, buffer_length.
  destruct (Z.ltb_spec (Z.of_nat (length front) + p) 0); [lia|].
  destruct (Z.ltb_spec p 0); [lia|].
  rewrite lookup_app_r by lia. do 2 f_equal. lia.
Qed.

Lemma buffer_at_app_l (front back : list byte) (p : Z) :
  p < buffer_length front → buffer_at (front ++ back) p = buffer_at front p.
Proof.
  intros Hp. unfold buffer_at, buffer_length in *.
  destruct (Z.ltb_spec p 0); [done|].
  by rewrite lookup_app_l by lia.
Qed.

(** Behind other bytes parseFrameHeader answers as it does on the buffer
    alone. *)
Lemma parseFrameHeader_app_front (front buffer : list byte) (p : Z) :
  0 <= p →
  parseFrameHeader (front ++ buffer) (buffer_length front + p)
  = parseFrameHeader buffer p.
Proof.
  intros Hpos.
  destruct (Z_lt_le_dec (buffer_length buffer) (p + 4)) as [Hshort|Hfit].
  - rewrite !parseFrameHeader_short; [done|lia|rewrite buffer_length_app; lia].
  - rewrite !parseFrameHeader_decode by (rewrite ?buffer_length_app; lia).
    rewrite <- !Z.add_assoc, !buffer_at_app_r by lia. done.
Qed.

Lemma parseFrameHeader_app_back (buffer back : list byte) (p : Z) :
  p + 4 <= buffer_length buffer →
  parseFrameHeader (buffer ++ back) p = parseFrameHeader buffer p.
Proof.
  intros Hfit.
  assert (0 <= buffer_length back) by (unfold buffer_length; lia).
  rewrite !parseFrameHeader_decode by (rewrite ?buffer_length_app; lia).
  by rewrite !buffer_at_app_l by lia.
Qed.

(** X5: the answer of parseFrameHeader at a position depends only on the
    four bytes from that position on: bytes put in front of the buffer move
    the answer along with the position, and bytes appended after those four
    do not change it. *)
Theorem parseFrameHeader_local (front buffer back : list byte) (position : Z) :
  (0 <= position →
   parseFrameHeader (front ++ buffer) (buffer_length front + position)
   = parseFrameHeader buffer position)
  ∧ (position + 4 <= buffer_length buffer →
     parseFrameHeader (buffer ++ back) position = parseFrameHeader buffer position).
Proof.
  split.
  - intros Hpos. by apply parseFrameHeader_app_front.
  - intros Hfit. by apply parseFrameHeader_app_back.
Qed.

Lemma parseFrameHeader_local_witness :
  0 <= 0
  ∧ parseFrameHeader (rejectedHeaders ++ frame417) (buffer_length rejectedHeaders + 0)
    = parseFrameHeader frame417 0
  ∧ 0 + 4 <= buffer_length frame417
  ∧ parseFrameHeader (frame417 ++ rejectedHeaders) 0 = parseFrameHeader frame417 0.
Proof.
  assert (0 <= 0) as Hpos by lia.
  assert (0 + 4 <= buffer_length frame417) as Hfit by (vm_compute; discriminate).
  split; [exact Hpos|]. split.
  - exact (proj1 (parseFrameHeader_local rejectedHeaders frame417 [] 0) Hpos).
  - split; [exact Hfit|].
    exact (proj2 (parseFrameHeader_local [] frame417 rejectedHeaders 0) Hfit).
Defined.

(** ** The cursor moves forward *)

(** X6: an iteration never moves the cursor back: it moves it forward when
    the loop goes on and leaves it where it is at a break; over a call the
    cursor is never below the offset the loop was entered with, and the
    count changes by 0 or 1 per iteration. *)
Theorem cursor_monotone :
  (∀ (parseHeader : list byte → Z → outcome (option FrameHeader))
     (buffer : list byte) (s s' : ScanState) (c : control),
      loopBody parseHeader buffer s = (s', c) →
      match c with
      | Continue => position s < position s'
      | Break => position s' = position s
      end
      ∧ (frameCount s' = frameCount s ∨ frameCount s' = frameCount s + 1))
  ∧ (∀ (buffer : list byte) (start : Z) (s : ScanState) (c : control),
      initialPosition buffer = Ret start →
      reachable buffer s c →
      0 <= start <= position s).
Proof.
  split.
  - intros parseHeader buffer s s' c Hbody. split.
    + destruct c; [by eapply loopBody_progress|].
      unfold loopBody, advance in Hbody.
      repeat case_match; simplify_eq; done.
    + apply loopBody_count in Hbody. lia.
  - intros buffer start s c Hstart Hreach.
    induction Hreach as [start' Hstart'|s s' c Hs IH Hguard Hbody].
    + rewrite Hstart in Hstart'. simplify_eq. cbn.
      destruct (initialPosition_returns buffer) as (start & Hstart' & ?).
      rewrite Hstart in Hstart'. simplify_eq. lia.
    + destruct c.
      * apply loopBody_progress in Hbody. lia.
      * unfold loopBody, advance in Hbody.
        repeat case_match; simplify_eq; cbn; lia.
Qed.

Lemma cursor_monotone_witness :
  let s := {| position := 0; frameCount := 0 |} in
  let s' := {| position := 417; frameCount := 1 |} in
  loopBody parseFrameHeader (frames 2) s = (s', Continue)
  ∧ position s < position s'
  ∧ initialPosition (frames 2) = Ret 0
  ∧ reachable (frames 2) s' Continue
  ∧ 0 <= 0 <= position s'.
Proof.
  intros s s'.
  assert (loopBody parseFrameHeader (frames 2) s = (s', Continue)) as Hbody
    by (vm_compute; reflexivity).
  assert (initialPosition (frames 2) = Ret 0) as Hstart by reflexivity.
  assert (reachable (frames 2) s' Continue) as Hreach.
  { apply (reach_iteration _ s s' Continue); [by apply reach_start| |exact Hbody].
    vm_compute. reflexivity. }
  split; [exact Hbody|]. split.
  - exact (proj1 (proj1 cursor_monotone parseFrameHeader (frames 2) s s' Continue Hbody)).
  - split; [exact Hstart|]. split; [exact Hreach|].
    exact (proj2 cursor_monotone (frames 2) 0 s' Continue Hstart Hreach).
Defined.

(** ** The count against the size of the buffer *)

(** What an iteration over [parseFrameHeader] does to the cursor when it
    counts: either it leaves the loop, or it moves at least 96 bytes on and
    stays below [length - 4]. *)
Lemma loopBody_consumes (buffer : list byte) (s s' : ScanState) (c : control) :
  position s < buffer_length buffer - 4 →
  loopBody parseFrameHeader buffer s = (s', c) →
  (frameCount s' = frameCount s ∧ c = Continue ∧ position s < position s')
  ∨ (frameCount s' = frameCount s + 1 ∧ c = Break)
  ∨ (frameCount s' = frameCount s + 1 ∧ c = Continue
     ∧ position s + 96 <= position s' < buffer_length buffer - 4).
Proof.
  intros Hguard. unfold loopBody, advance.
  destruct (parseFrameHeader buffer (position s)) as [[header|]|] eqn:Hparse.
  - pose proof (parsed_frameSize_range _ _ _ Hparse) as Hsize.
    destruct ((frameSize header <? 4) || (frameSize header >? 1440)).
    { intros [= <- <-]. cbn. left. repeat split; lia. }
    destruct (Z.gtb_spec (position s + frameSize header) (buffer_length buffer)).
    { destruct (Z.leb_spec (position s + 4) (buffer_length buffer)); [|lia].
      intros [= <- <-]. cbn. right. left. repeat split; lia. }
    destruct (Z.geb_spec (position s + frameSize header) (buffer_length buffer - 4)).
    { intros [= <- <-]. cbn. right. left. repeat split; lia. }
    destruct (parseFrameHeader buffer (position s + frameSize header)) as [next|] eqn:Hnext.
    + destruct (match next with Some _ => _ | None => _ end);
        intros [= <- <-]; cbn; right; right; repeat split; lia.
    + by apply parseFrameHeader_no_throw in Hnext.
  - intros [= <- <-]. cbn. left. repeat split; lia.
  - intros [= <- <-]. cbn. left. repeat split; lia.
Qed.

Lemma scan_count_bound (fuel : nat) (buffer : list byte) (s r : ScanState) :
  scan parseFrameHeader fuel buffer s = Some r →
  96 * (frameCount r - frameCount s)
  < Z.max (buffer_length buffer - position s) 4 + 92.
Proof.
  revert s. induction fuel as [|fuel IH]; intros s Hscan.
  - destruct (Z_lt_le_dec (position s) (buffer_length buffer - 4)) as [Hguard|Hend].
    + cbn [scan] in Hscan.
      by destruct (Z.ltb_spec (position s) (buffer_length buffer - 4)); [|lia].
    + rewrite scan_done in Hscan by lia. simplify_eq. lia.
  - destruct (Z_lt_le_dec (position s) (buffer_length buffer - 4)) as [Hguard|Hend].
    + rewrite scan_step in Hscan by done.
      destruct (loopBody parseFrameHeader buffer s) as [s' c] eqn:Hbody.
      destruct (loopBody_consumes _ _ _ _ Hguard Hbody)
        as [(Hc & -> & Hp)|[(Hc & ->)|(Hc & -> & Hp)]].
      * apply IH in Hscan. lia.
      * injection Hscan as <-. lia.
      * apply IH in Hscan. lia.
    + rewrite scan_done in Hscan by lia. simplify_eq. lia.
Qed.

(** X7: the count is bounded by the size of the buffer: every counted frame
    but the last takes at least 96 bytes, the smallest frame size, and the
    last one more than 4, so the count n is 0 or the buffer has more than
    96 * (n - 1) + 4 bytes. *)
Theorem countMp3Frames_bound (buffer : list byte) :
  ∃ n : Z,
    countMp3Frames buffer = Some (Ret n)
    ∧ 0 <= n
    ∧ (n = 0 ∨ 96 * (n - 1) + 4 < buffer_length buffer).
Proof.
  destruct (countFrames_returns parseFrameHeader buffer) as (n & Hn & Hpos).
  exists n. split; [exact Hn|]. split; [done|].
  assert (96 * n < Z.max (buffer_length buffer) 4 + 92) as Hbound.
  { unfold countFrames in Hn.
    destruct (initialPosition_returns buffer) as (start & Hstart & Hnonneg).
    rewrite Hstart in Hn.
    destruct (scan parseFrameHeader (length buffer) buffer _) as [r|] eqn:Hr; [|done].
    apply scan_count_bound in Hr. cbn in Hn, Hr. injection Hn as <-. lia. }
  lia.
Qed.

(** ** Synchsafe sizes *)

Lemma lor_disjoint (h l k : Z) :
  0 <= k → 0 <= l < 2 ^ k → Z.lor (h * 2 ^ k) l = h * 2 ^ k + l.
Proof.
  intros Hk Hl.
  assert (Z.land (h * 2 ^ k) l = 0) as Hdisjoint.
  { rewrite <- Z.shiftl_mul_pow2 by done.
    rewrite <- (Z.mod_small l (2 ^ k)) by done.
    rewrite <- Z.land_ones by done.
    apply Z.bits_inj'. intros n Hn.
    rewrite !Z.land_spec, Z.bits_0, Z.shiftl_spec by done.
    destruct (Z_lt_le_dec n k).
    - rewrite (Z.testbit_neg_r h) by lia. done.
    - rewrite Z.ones_spec_high by lia. by rewrite !andb_false_r. }
  rewrite <- Z.lxor_lor by done. symmetry. by apply Z.add_nocarry_lxor.
Qed.

Lemma id3Size_range (b6 b7 b8 b9 : Z) :
  0 <= b6 < 256 → 0 <= b7 < 256 → 0 <= b8 < 256 → 0 <= b9 < 256 →
  0 <= Z.lor (Z.lor (Z.lor (Z.shiftl b6 21) (Z.shiftl b7 14)) (Z.shiftl b8 7)) b9
  < 2 ^ 29.
Proof.
  intros H6 H7 H8 H9.
  destruct (js_shl_byte b6 21) as [_ ?]; [lia..|].
  destruct (js_shl_byte b7 14) as [_ ?]; [lia..|].
  destruct (js_shl_byte b8 7) as [_ ?]; [lia..|].
  repeat apply lor_range; try done.
  change (2 ^ 29) with 536870912. lia.
Qed.

Lemma synchsafe_sum (b6 b7 b8 b9 : Z) :
  0 <= b6 < 128 → 0 <= b7 < 128 → 0 <= b8 < 128 → 0 <= b9 < 128 →
  Z.lor (Z.lor (Z.lor (Z.shiftl b6 21) (Z.shiftl b7 14)) (Z.shiftl b8 7)) b9
  = b6 * 2097152 + b7 * 16384 + b8 * 128 + b9.
Proof.
  intros H6 H7 H8 H9.
  rewrite !Z.shiftl_mul_pow2 by lia.
  rewrite (lor_disjoint b6 (b7 * 2 ^ 14) 21)
    by (change (2 ^ 21) with 2097152; change (2 ^ 14) with 16384; lia).
  replace (b6 * 2 ^ 21 + b7 * 2 ^ 14) with ((b6 * 2 ^ 7 + b7) * 2 ^ 14)
    by (change (2 ^ 21) with (2 ^ 7 * 2 ^ 14); lia).
  rewrite (lor_disjoint _ (b8 * 2 ^ 7) 14)
    by (change (2 ^ 14) with 16384; change (2 ^ 7) with 128; lia).
  replace ((b6 * 2 ^ 7 + b7) * 2 ^ 14 + b8 * 2 ^ 7)
    with (((b6 * 2 ^ 7 + b7) * 2 ^ 7 + b8) * 2 ^ 7)
    by (change (2 ^ 14) with (2 ^ 7 * 2 ^ 7); lia).
  rewrite (lor_disjoint _ b9 7) by (change (2 ^ 7) with 128; lia).
  change (2 ^ 7) with 128. lia.
Qed.

(** X8: for size bytes that are synchsafe (each below 128) the tag skip
    starts the scan at 10 + b6 * 2^21 + b7 * 2^14 + b8 * 2^7 + b9; whatever
    the size bytes are, the start offset of a tagged buffer lies between 10
    and 10 + 2^29 - 1, and the start offset of any buffer is 0 or at
    least 10. *)
Theorem synchsafe_start :
  (∀ (buffer : list byte) (b6 b7 b8 b9 : byte),
      (10 <= length buffer)%nat →
      take 3 buffer = [x49; x44; x33]%byte →
      buffer !! 6%nat = Some b6 → buffer !! 7%nat = Some b7 →
      buffer !! 8%nat = Some b8 → buffer !! 9%nat = Some b9 →
      (∃ start, initialPosition buffer = Ret start ∧ 10 <= start <= 536870921)
      ∧ (byte_val b6 < 128 → byte_val b7 < 128 →
         byte_val b8 < 128 → byte_val b9 < 128 →
         initialPosition buffer =
           Ret (10 + (byte_val b6 * 2097152 + byte_val b7 * 16384
                      + byte_val b8 * 128 + byte_val b9))))
  ∧ (∀ (buffer : list byte) (start : Z),
      initialPosition buffer = Ret start → start = 0 ∨ 10 <= start).
Proof.
  split.
  - intros buffer b6 b7 b8 b9 Hlen Hid3 H6 H7 H8 H9.
    pose proof (initialPosition_id3 buffer b6 b7 b8 b9 Hlen Hid3 H6 H7 H8 H9) as Hstart.
    pose proof (byte_val_range b6). pose proof (byte_val_range b7).
    pose proof (byte_val_range b8). pose proof (byte_val_range b9).
    split.
    + eexists. split; [exact Hstart|].
      pose proof (id3Size_range (byte_val b6) (byte_val b7) (byte_val b8) (byte_val b9))
        as Hrange.
      change (2 ^ 29) with 536870912 in Hrange. lia.
    + intros ? ? ? ?. rewrite Hstart. by rewrite synchsafe_sum by lia.
  - intros buffer start. unfold initialPosition.
    destruct (Z.geb_spec (buffer_length buffer) 10) as [Hlen|]; [|intros [= <-]; by left].
    destruct (toStringAscii buffer 0 3 =? "ID3")%string; [|intros [= <-]; by left].
    rewrite !readByte_inside by lia. cbn [mbind outcome_bind].
    destruct (buffer_at_inside buffer 6) as (b6 & _ & ->); [lia|].
    destruct (buffer_at_inside buffer 7) as (b7 & _ & ->); [lia|].
    destruct (buffer_at_inside buffer 8) as (b8 & _ & ->); [lia|].
    destruct (buffer_at_inside buffer 9) as (b9 & _ & ->); [lia|].
    cbn [ToInt32].
    destruct (id3Size_no_wrap (byte_val b6) (byte_val b7) (byte_val b8) (byte_val b9))
      as [-> ?]; [apply byte_val_range..|].
    intros [= <-]. right. lia.
Qed.

Lemma synchsafe_start_witness :
  let buffer := ([x49; x44; x33; x04; x00; x00; x00; x00; x02; x01])%byte in
  (10 <= length buffer)%nat
  ∧ take 3 buffer = [x49; x44; x33]%byte
  ∧ byte_val x00 < 128 ∧ byte_val x02 < 128 ∧ byte_val x01 < 128
  ∧ initialPosition buffer = Ret (10 + (0 * 2097152 + 0 * 16384 + 2 * 128 + 1))
  ∧ (267 = 0 ∨ 10 <= 267).
Proof.
  intros buffer.
  assert (10 <= length buffer)%nat as Hlen by (cbn; lia).
  assert (byte_val x00 < 128) as H0 by (vm_compute; reflexivity).
  assert (byte_val x02 < 128) as H2 by (vm_compute; reflexivity).
  assert (byte_val x01 < 128) as H1 by (vm_compute; reflexivity).
  pose proof (proj2 (proj1 synchsafe_start buffer x00 x00 x02 x01 Hlen
                       eq_refl eq_refl eq_refl eq_refl eq_refl) H0 H0 H2 H1) as Hstart.
  repeat (split; [first [exact Hlen | exact Hstart | reflexivity | assumption]|]).
  exact (proj2 synchsafe_start buffer 267 Hstart).
Defined.

(** ** The scan of a buffer behind other bytes *)

(** An iteration on [front ++ buffer] at a cursor inside [buffer] is the
    iteration on [buffer], moved along. *)
Lemma loopBody_shift (front buffer : list byte) (s : ScanState) :
  0 <= position s →
  loopBody parseFrameHeader (front ++ buffer) (shift (buffer_length front) s)
  = (shift (buffer_length front) (loopBody parseFrameHeader buffer s).1,
     (loopBody parseFrameHeader buffer s).2).
Proof.
  intros Hpos. unfold loopBody. cbn [shift position frameCount].
  rewrite (parseFrameHeader_app_front front buffer (position s)) by done.
  rewrite buffer_length_app.
  set (L := buffer_length front).
  destruct (parseFrameHeader buffer (position s)) as [[header|]|] eqn:Hparse;
    [|unfold advance, shift; cbn; do 2 f_equal; lia..].
  pose proof (parsed_frameSize_range _ _ _ Hparse) as Hsize.
  destruct ((frameSize header <? 4) || (frameSize header >? 1440)).
  { unfold advance, shift. cbn. do 2 f_equal. lia. }
  destruct (Z.gtb_spec (L + position s + frameSize header) (L + buffer_length buffer)),
    (Z.gtb_spec (position s + frameSize header) (buffer_length buffer)); try lia.
  { destruct (Z.leb_spec (L + position s + 4) (L + buffer_length buffer)),
      (Z.leb_spec (position s + 4) (buffer_length buffer)); try lia; done. }
  destruct (Z.geb_spec (L + position s + frameSize header) (L + buffer_length buffer - 4)),
    (Z.geb_spec (position s + frameSize header) (buffer_length buffer - 4)); try lia.
  { done. }
  replace (L + position s + frameSize header)
    with (L + (position s + frameSize header)) by lia.
  unfold L.
  rewrite (parseFrameHeader_app_front front buffer
             (position s + frameSize header)) by lia.
  destruct (parseFrameHeader buffer (position s + frameSize header)) as [next|].
  - by destruct (match next with Some _ => _ | None => _ end).
  - unfold shift. cbn. do 2 f_equal. lia.
Qed.

Lemma scan_shift (fuel : nat) (front buffer : list byte) (s : ScanState) :
  0 <= position s →
  scan parseFrameHeader fuel (front ++ buffer) (shift (buffer_length front) s)
  = shift (buffer_length front) <$> scan parseFrameHeader fuel buffer s.
Proof.
  revert s. induction fuel as [|fuel IH]; intros s Hpos.
  - cbn [scan shift position]. rewrite buffer_length_app.
    destruct (Z.ltb_spec (buffer_length front + position s)
                (buffer_length front + buffer_length buffer - 4)),
      (Z.ltb_spec (position s) (buffer_length buffer - 4)); try lia; done.
  - destruct (Z_lt_le_dec (position s) (buffer_length buffer - 4)) as [Hguard|Hend].
    + rewrite !scan_step by (cbn [shift position]; rewrite ?buffer_length_app; lia).
      rewrite loopBody_shift by done.
      destruct (loopBody parseFrameHeader buffer s) as [s' []] eqn:Hbody; cbn [fst snd].
      * apply loopBody_progress in Hbody. apply IH. lia.
      * done.
    + rewrite !scan_done by (cbn [shift position]; rewrite ?buffer_length_app; lia).
      done.
Qed.




(** ** Resynchronisation over leading bytes *)

Lemma byte_val_xff (b : byte) : byte_val b = 255 → b = xff%byte.
Proof.
  unfold byte_val. intros Hb.
  assert (Byte.to_N b = 255%N) as Hn by lia.
  pose proof (Byte.of_to_N b) as Hof. rewrite Hn in Hof.
  by injection Hof.
Qed.





(** ** A tag that reaches the end of the buffer *)

(** X11: when an ID3 tag declares a size that puts the start of the scan at
    or beyond [length - 4], countMp3Frames returns 0 whatever bytes the
    buffer holds. *)
Theorem countMp3Frames_tag_covers_buffer (buffer : list byte) (b6 b7 b8 b9 : byte) :
  (10 <= length buffer)%nat →
  take 3 buffer = [x49; x44; x33]%byte →
  buffer !! 6%nat = Some b6 → buffer !! 7%nat = Some b7 →
  buffer !! 8%nat = Some b8 → buffer !! 9%nat = Some b9 →
  buffer_length buffer - 14
  <= Z.lor (Z.lor (Z.lor (Z.shiftl (byte_val b6) 21) (Z.shiftl (byte_val b7) 14))
                  (Z.shiftl (byte_val b8) 7)) (byte_val b9) →
  countMp3Frames buffer = Some (Ret 0).
Proof.
  intros Hlen Hid3 H6 H7 H8 H9 Hsize.
  pose proof (initialPosition_id3 buffer b6 b7 b8 b9 Hlen Hid3 H6 H7 H8 H9) as Hstart.
  apply (countFrames_start_beyond _ _ _ Hstart). lia.
Qed.

Lemma countMp3Frames_tag_covers_buffer_witness :
  let buffer := [x49; x44; x33; x03; x00; x00; x00; x00; x03; x7f]%byte ++ frames 1 in
  (10 <= length buffer)%nat
  ∧ take 3 buffer = [x49; x44; x33]%byte
  ∧ buffer_length buffer - 14
    <= Z.lor (Z.lor (Z.lor (Z.shiftl (byte_val x00) 21) (Z.shiftl (byte_val x00) 14))
                    (Z.shiftl (byte_val x03) 7)) (byte_val x7f)
  ∧ countMp3Frames buffer = Some (Ret 0).
Proof.
  intros buffer.
  assert (10 <= length buffer)%nat as Hlen by (cbn; lia).
  assert (buffer_length buffer - 14
          <= Z.lor (Z.lor (Z.lor (Z.shiftl (byte_val x00) 21) (Z.shiftl (byte_val x00) 14))
                          (Z.shiftl (byte_val x03) 7)) (byte_val x7f)) as Hsize
    by (vm_compute; discriminate).
  split; [exact Hlen|]. split; [reflexivity|]. split; [exact Hsize|].
  exact (countMp3Frames_tag_covers_buffer buffer x00 x00 x03 x7f Hlen
           eq_refl eq_refl eq_refl eq_refl eq_refl Hsize).
Defined.

(** ** The frame that runs over the end *)

(** X12: inside the loop a header whose frame would end beyond the buffer
    is always counted, and the scan ends there: the test for four remaining
    bytes cannot fail below [length - 4], and the size of a header
    parseFrameHeader returns is never below 4. *)
Theorem overrunning_frame_counted (buffer : list byte) (s : ScanState)
    (header : FrameHeader) (fuel : nat) :
  position s < buffer_length buffer - 4 →
  parseFrameHeader buffer (position s) = Ret (Some header) →
  frameSize header <= 1440 →
  buffer_length buffer < position s + frameSize header →
  scan parseFrameHeader (S fuel) buffer s
  = Some {| position := position s; frameCount := frameCount s + 1 |}.
Proof.
  intros Hguard Hparse Hmax Hover.
  pose proof (parsed_frameSize_range _ _ _ Hparse) as Hsize.
  rewrite scan_step by done. unfold loopBody. rewrite Hparse.
  destruct (Z.ltb_spec (frameSize header) 4); [lia|].
  destruct (Z.gtb_spec (frameSize header) 1440); [lia|]. cbn [orb].
  destruct (Z.gtb_spec (position s + frameSize header) (buffer_length buffer)); [|lia].
  by destruct (Z.leb_spec (position s + 4) (buffer_length buffer)); [|lia].
Qed.

Lemma overrunning_frame_counted_witness :
  let buffer := (header128 ++ [x00])%byte in
  let s := {| position := 0; frameCount := 0 |} in
  position s < buffer_length buffer - 4
  ∧ parseFrameHeader buffer (position s) = Ret (Some header417)
  ∧ frameSize header417 <= 1440
  ∧ buffer_length buffer < position s + frameSize header417
  ∧ scan parseFrameHeader 1 buffer s = Some {| position := 0; frameCount := 0 + 1 |}.
Proof.
  intros buffer s.
  assert (position s < buffer_length buffer - 4) as Hguard by (vm_compute; reflexivity).
  assert (parseFrameHeader buffer (position s) = Ret (Some header417)) as Hparse
    by (vm_compute; reflexivity).
  assert (frameSize header417 <= 1440) as Hmax by (vm_compute; discriminate).
  assert (buffer_length buffer < position s + frameSize header417) as Hover
    by (vm_compute; reflexivity).
  repeat (split; [assumption|]).
  exact (overrunning_frame_counted buffer s header417 0 Hguard Hparse Hmax Hover).
Defined.

(** ** The upload handler *)

(** X13: the handler of POST /file-upload always answers with a JSON body and
    never hands an error to [next]: status 400 when no file or an empty file
    was uploaded, and status 200 with the count of countMp3Frames, which is
    not negative, for every file of at least one byte. *)
Theorem fileUpload_answers :
  fileUpload None = Some (Json 400 (ErrorBody noFileMessage))
  ∧ fileUpload (Some []) = Some (Json 400 (ErrorBody "Uploaded file is empty"))
  ∧ (∀ (b : byte) (rest : list byte),
      ∃ n : Z,
        fileUpload (Some (b :: rest)) = Some (Json 200 (FrameCountBody n))
        ∧ countMp3Frames (b :: rest) = Some (Ret n)
        ∧ 0 <= n)
  ∧ (∀ file : option (list byte),
      ∃ status body, fileUpload file = Some (Json status body)).
Proof.
  assert (∀ (b : byte) (rest : list byte),
      ∃ n : Z,
        fileUpload (Some (b :: rest)) = Some (Json 200 (FrameCountBody n))
        ∧ countMp3Frames (b :: rest) = Some (Ret n)
        ∧ 0 <= n) as Hfile.
  { intros b rest.
    destruct (countFrames_returns parseFrameHeader (b :: rest)) as (n & Hn & Hpos).
    exists n. split; [|done].
    unfold fileUpload.
    destruct (Z.eqb_spec (buffer_length (b :: rest)) 0) as [Hlen|_].
    - unfold buffer_length in Hlen. cbn [length] in Hlen. lia.
    - unfold countMp3Frames. by rewrite Hn. }
  split; [reflexivity|]. split; [reflexivity|]. split; [exact Hfile|].
  intros [[|b rest]|]; [by eexists _, _..| |by eexists _, _].
  destruct (Hfile b rest) as (n & -> & _). by eexists _, _.
Qed.

(** ** Bytes after the last whole frame *)

Lemma parseFrameHeader_frames_tail (n k : nat) (tail : list byte) :
  (k < n)%nat →
  parseFrameHeader (frames n ++ tail) (417 * Z.of_nat k) = Ret (Some header417).
Proof.
  intros Hk. rewrite parseFrameHeader_app_back.
  - by apply parseFrameHeader_frames.
  - rewrite frames_buffer_length. lia.
Qed.

(** One iteration at the start of frame [k] when bytes follow the frames:
    the loop ends at the last frame only when at most four bytes follow. *)
Lemma loopBody_frames_tail (n k : nat) (count : Z) (tail : list byte) :
  (k < n)%nat →
  loopBody parseFrameHeader (frames n ++ tail)
    {| position := 417 * Z.of_nat k; frameCount := count |}
  = if decide (S k = n ∧ (length tail <= 4)%nat)
    then ({| position := 417 * Z.of_nat k; frameCount := count + 1 |}, Break)
    else ({| position := 417 * Z.of_nat (S k); frameCount := count + 1 |}, Continue).
Proof.
  intros Hk. unfold loopBody. cbn [position frameCount].
  rewrite parseFrameHeader_frames_tail by done.
  cbn [frameSize header417]. rewrite buffer_length_app, frames_buffer_length.
  unfold buffer_length.
  change ((417 <? 4) || (417 >? 1440)) with false. cbn match.
  destruct (Z.gtb_spec (417 * Z.of_nat k + 417)
              (417 * Z.of_nat n + Z.of_nat (length tail))); [lia|].
  destruct (Z.geb_spec (417 * Z.of_nat k + 417)
              (417 * Z.of_nat n + Z.of_nat (length tail) - 4)).
  - destruct (decide (S k = n ∧ (length tail <= 4)%nat)); [done|lia].
  - destruct (decide (S k = n ∧ (length tail <= 4)%nat)); [lia|].
    replace (417 * Z.of_nat k + 417) with (417 * Z.of_nat (S k)) by lia.
    destruct (parseFrameHeader (frames n ++ tail) (417 * Z.of_nat (S k)))
      as [next|] eqn:Hnext.
    + by destruct (match next with Some _ => _ | None => _ end).
    + by apply parseFrameHeader_no_throw in Hnext.
Qed.

Lemma scan_frames_short_tail (n d k fuel : nat) (tail : list byte) :
  (length tail <= 4)%nat → (k + d = n)%nat → (d <= fuel)%nat →
  ∃ r, scan parseFrameHeader fuel (frames n ++ tail)
         {| position := 417 * Z.of_nat k; frameCount := Z.of_nat k |} = Some r
       ∧ frameCount r = Z.of_nat n.
Proof.
  intros Htail. revert k fuel. induction d as [|d IH]; intros k fuel Hkd Hfuel.
  - eexists. split.
    + apply scan_done. rewrite buffer_length_app, frames_buffer_length.
      unfold buffer_length. cbn. lia.
    + cbn. lia.
  - destruct fuel as [|fuel]; [lia|].
    rewrite scan_step
      by (rewrite buffer_length_app, frames_buffer_length; unfold buffer_length; cbn; lia).
    rewrite loopBody_frames_tail by lia.
    destruct (decide (S k = n ∧ (length tail <= 4)%nat)).
    + eexists. split; [done|]. cbn. lia.
    + replace (Z.of_nat k + 1) with (Z.of_nat (S k)) by lia.
      apply IH; lia.
Qed.

Lemma scan_frames_long_tail (n d k fuel : nat) (tail : list byte) :
  (4 < length tail)%nat → (k + d = n)%nat →
  scan parseFrameHeader (d + fuel) (frames n ++ tail)
    {| position := 417 * Z.of_nat k; frameCount := Z.of_nat k |}
  = scan parseFrameHeader fuel (frames n ++ tail)
      {| position := 417 * Z.of_nat n; frameCount := Z.of_nat n |}.
Proof.
  intros Htail. revert k. induction d as [|d IH]; intros k Hkd.
  - replace k with n by lia. done.
  - change (S d + fuel)%nat with (S (d + fuel)).
    rewrite scan_step
      by (rewrite buffer_length_app, frames_buffer_length; unfold buffer_length; cbn; lia).
    rewrite loopBody_frames_tail by lia.
    destruct (decide (S k = n ∧ (length tail <= 4)%nat)); [lia|].
    replace (Z.of_nat k + 1) with (Z.of_nat (S k)) by lia.
    apply IH. lia.
Qed.

Lemma initialPosition_frames_tail (n : nat) (tail : list byte) :
  (0 < n)%nat ∨ (length tail < 10)%nat ∨ (∃ rest, tail = xff%byte :: rest) →
  initialPosition (frames n ++ tail) = Ret 0.
Proof.
  intros Hcase. unfold initialPosition.
  destruct (Z.geb_spec (buffer_length (frames n ++ tail)) 10) as [Hlen|]; [|done].
  destruct n as [|n]; [|reflexivity].
  destruct Hcase as [?|[Hshort|[rest ->]]]; [lia| |reflexivity].
  unfold buffer_length in Hlen. cbn in Hlen. lia.
Qed.

(** X14: after N whole 417-byte frames, at most four further bytes of any
    content are not looked at and the count is N; a further header
    0xFF 0xFB 0x90 with at least two and at most 413 bytes behind it, a
    frame cut short, is counted and the count is N + 1.  Five bytes, not
    four, are the least a trailing partial frame needs. *)
Theorem countMp3Frames_trailing_bytes :
  (∀ (N : nat) (tail : list byte),
      (length tail <= 4)%nat →
      countMp3Frames (frames N ++ tail) = Some (Ret (Z.of_nat N)))
  ∧ (∀ (N : nat) (rest : list byte),
      (2 <= length rest <= 413)%nat →
      countMp3Frames (frames N ++ [xff; xfb; x90]%byte ++ rest)
      = Some (Ret (Z.of_nat N + 1))).
Proof.
  split.
  - intros N tail Htail. unfold countMp3Frames, countFrames.
    rewrite initialPosition_frames_tail by lia.
    destruct (scan_frames_short_tail N N 0 (length (frames N ++ tail)) tail)
      as (r & Hr & Hcount); [done|lia|rewrite length_app, frames_length; lia|].
    change (417 * Z.of_nat 0) with 0 in Hr. change (Z.of_nat 0) with 0 in Hr.
    rewrite Hr. cbn. by rewrite Hcount.
  - intros N rest Hrest. unfold countMp3Frames, countFrames.
    set (tail := [xff; xfb; x90]%byte ++ rest).
    assert (length tail = 3 + length rest)%nat as Hlen by reflexivity.
    rewrite initialPosition_frames_tail by (right; right; by eexists).
    pose proof (scan_frames_long_tail N N 0 (length tail) tail) as Hscan.
    change (417 * Z.of_nat 0) with 0 in Hscan. change (Z.of_nat 0) with 0 in Hscan.
    rewrite (scan_fuel_mono _ (N + length tail) _ _ _
               {| position := 417 * Z.of_nat N; frameCount := Z.of_nat N + 1 |});
      [done| |rewrite length_app, frames_length; lia].
    rewrite Hscan by lia.
    destruct (length tail) as [|fuel] eqn:Hfuel; [lia|].
    rewrite scan_step
      by (rewrite buffer_length_app, frames_buffer_length; unfold buffer_length; cbn; lia).
    unfold loopBody. cbn [position frameCount].
    rewrite <- (Z.add_0_r (417 * Z.of_nat N)) at 1.
    rewrite <- frames_buffer_length, parseFrameHeader_app_front by lia.
    assert (parseFrameHeader tail 0 = Ret (Some header417)) as ->.
    { change 0 with (Z.of_nat 0).
      rewrite (parseFrameHeader_bytes tail 0 xff xfb x90);
        [|done..|unfold buffer_length; lia].
      by rewrite decodeHeader_header128. }
    cbn [frameSize header417].
    change ((417 <? 4) || (417 >? 1440)) with false. cbn match.
    rewrite buffer_length_app.
    assert (buffer_length tail = Z.of_nat (S fuel)) as -> by (unfold buffer_length; lia).
    destruct (Z.gtb_spec (buffer_length (frames N) + 417)
                (buffer_length (frames N) + Z.of_nat (S fuel))); [|lia].
    destruct (Z.leb_spec (buffer_length (frames N) + 4)
                (buffer_length (frames N) + Z.of_nat (S fuel))); [|lia].
    rewrite frames_buffer_length. done.
Qed.

Lemma countMp3Frames_trailing_bytes_witness :
  (length header128 <= 4)%nat
  ∧ countMp3Frames (frames 2 ++ header128) = Some (Ret (Z.of_nat 2))
  ∧ (2 <= length [x00; x00]%byte <= 413)%nat
  ∧ countMp3Frames (frames 2 ++ [xff; xfb; x90]%byte ++ [x00; x00]%byte)
    = Some (Ret (Z.of_nat 2 + 1)).
Proof.
  assert (length header128 <= 4)%nat as Hshort by (cbn; lia).
  assert (2 <= length [x00; x00]%byte <= 413)%nat as Hlong by (cbn; lia).
  split; [exact Hshort|]. split.
  - exact (proj1 countMp3Frames_trailing_bytes 2%nat header128 Hshort).
  - split; [exact Hlong|].
    exact (proj2 countMp3Frames_trailing_bytes 2%nat [x00; x00]%byte Hlong).
Defined.

(** ** Streams of whole frames of any bitrate *)

Lemma wholeFrame_starts_xff (frame : list byte) :
  wholeFrame frame → ∃ rest, frame = xff%byte :: rest.
Proof.
  intros (header & Hparse & _).
  apply parseFrameHeader_Some in Hparse as (_ & _ & b1 & b2 & b3 & Hl1 & _ & _ & Hd).
  apply decodeHeader_Some in Hd as [(Hsync & _) _]; [|apply byte_val_range..].
  apply byte_val_xff in Hsync. subst b1.
  destruct frame as [|b rest]; [done|].
  change (Z.to_nat 0) with 0%nat in Hl1. cbn in Hl1.
  injection Hl1 as ->. by exists rest.
Qed.

Lemma wholeFrame_length (frame : list byte) :
  wholeFrame frame → 96 <= buffer_length frame <= 1440.
Proof.
  intros (header & Hparse & Hlen & Hmax).
  pose proof (parsed_frameSize_range _ _ _ Hparse). lia.
Qed.

Lemma wholeFrames_length (fs : list (list byte)) :
  Forall wholeFrame fs → 96 * Z.of_nat (length fs) <= buffer_length (mjoin fs).
Proof.
  induction 1 as [|frame fs Hframe _ IH]; [done|].
  change (mjoin (frame :: fs)) with (frame ++ mjoin fs).
  rewrite buffer_length_app. apply wholeFrame_length in Hframe.
  cbn [length]. lia.
Qed.

(** From the start of a stream of whole frames the loop counts each of
    them. *)
Lemma scan_wholeFrames (fs : list (list byte)) (count : Z) (fuel : nat) :
  Forall wholeFrame fs → (length fs <= fuel)%nat →
  ∃ r, scan parseFrameHeader fuel (mjoin fs) {| position := 0; frameCount := count |}
       = Some r
       ∧ frameCount r = count + Z.of_nat (length fs).
Proof.
  intros Hfs. revert count fuel.
  induction Hfs as [|frame fs Hframe Hfs IH]; intros count fuel Hfuel.
  - eexists. split; [by apply scan_done|]. cbn. lia.
  - change (mjoin (frame :: fs)) with (frame ++ mjoin fs).
    pose proof (wholeFrame_length _ Hframe) as Hlen.
    pose proof (wholeFrames_length _ Hfs) as Hrest.
    destruct Hframe as (header & Hparse & Hsize & Hmax).
    destruct fuel as [|fuel]; [cbn in Hfuel; lia|].
    assert (0 <= buffer_length (mjoin fs)) by (unfold buffer_length; lia).
    rewrite scan_step by (rewrite buffer_length_app; cbn; lia).
    unfold loopBody. cbn [position frameCount].
    rewrite parseFrameHeader_app_back, Hparse by lia.
    destruct (Z.ltb_spec (frameSize header) 4); [lia|].
    destruct (Z.gtb_spec (frameSize header) 1440); [lia|]. cbn [orb].
    rewrite buffer_length_app.
    destruct (Z.gtb_spec (0 + frameSize header)
                (buffer_length frame + buffer_length (mjoin fs))); [lia|].
    destruct (Z.geb_spec (0 + frameSize header)
                (buffer_length frame + buffer_length (mjoin fs) - 4)) as [Hlast|Hmore].
    + destruct fs as [|frame' fs]; [|cbn [length] in Hrest; lia].
      eexists. split; [done|]. cbn. lia.
    + assert (scan parseFrameHeader fuel (frame ++ mjoin fs)
                {| position := 0 + frameSize header; frameCount := count + 1 |}
              = shift (buffer_length frame)
                  <$> scan parseFrameHeader fuel (mjoin fs)
                        {| position := 0; frameCount := count + 1 |}) as Hshift.
      { rewrite <- scan_shift by (cbn; lia). do 2 f_equal.
        unfold shift. cbn. f_equal. lia. }
      destruct (IH (count + 1) fuel) as (r & Hr & Hcount); [cbn in Hfuel; lia|].
      rewrite Hr in Hshift. cbn in Hshift.
      exists (shift (buffer_length frame) r).
      split; [|cbn [shift frameCount length]; lia].
      destruct (parseFrameHeader (frame ++ mjoin fs) (0 + frameSize header))
        as [next|] eqn:Hnext.
      * by destruct (match next with Some _ => _ | None => _ end).
      * by apply parseFrameHeader_no_throw in Hnext.
Qed.

(** X15: a buffer made of whole frames, of any bitrates and sample rates,
    each as long as its header says and not longer than 1440 bytes, is
    counted exactly: countMp3Frames returns the number of frames. *)
Theorem countMp3Frames_wholeFrames (fs : list (list byte)) :
  Forall wholeFrame fs →
  countMp3Frames (mjoin fs) = Some (Ret (Z.of_nat (length fs))).
Proof.
  intros Hfs. unfold countMp3Frames, countFrames.
  assert (initialPosition (mjoin fs) = Ret 0) as ->.
  { destruct Hfs as [|frame fs Hframe _]; [done|].
    apply wholeFrame_starts_xff in Hframe as [rest ->].
    unfold initialPosition. by destruct (_ >=? _). }
  destruct (scan_wholeFrames fs 0 (length (mjoin fs)) Hfs) as (r & Hr & Hcount).
  - pose proof (wholeFrames_length _ Hfs). unfold buffer_length in *. lia.
  - rewrite Hr. cbn. by rewrite Hcount.
Qed.

Lemma countMp3Frames_wholeFrames_witness :
  let padded320 := ([xff; xfb; xe2; x00] ++ replicate 1041 x00)%byte in
  let mono32 := ([xff; xfb; x14; xc0] ++ replicate 92 x00)%byte in
  Forall wholeFrame [frame417; padded320; mono32]
  ∧ countMp3Frames (mjoin [frame417; padded320; mono32]) = Some (Ret 3).
Proof.
  intros padded320 mono32.
  assert (Forall wholeFrame [frame417; padded320; mono32]) as Hfs.
  { repeat constructor; eexists; (split; [vm_compute; reflexivity|]);
      split; vm_compute; (reflexivity || discriminate). }
  split; [exact Hfs|].
  exact (countMp3Frames_wholeFrames [frame417; padded320; mono32] Hfs).
Defined.
